(** * Edge device telemetry: retry protocol and idempotent ingestion

    A shallow embedding of [src/edge/app.py] (the receiving service) and of
    [src/device/simulated_device.py] (the sending device), with the
    properties of the reliability protocol stated over it.

    Conventions of the embedding.
    - Python [float] values (clock readings, delays, probabilities) are the
      rationals they denote, in [Q]; comparisons are the exact ones.  The one
      partial float operation the code performs, the conversion of an
      unbounded [int] to [float], is kept partial ([float_of_int]).  The
      expiry [time.time() + self.ttl_seconds], which the service stores and
      later compares with the clock, is the double the addition rounds to
      ([float_add_int]).
    - [time.time()], [random.random()], [random.uniform] and [uuid.uuid4()]
      read the outside world: every reading is an explicit argument of the
      function that performs it, in the order the code performs them.
    - A Python [dict] keyed by [str] is a [gmap string _].
    - Observable effects of the device (log lines, HTTP posts, sleeps) are
      collected in a trace, in program order. *)

From Stdlib Require Import QArith Qminmax Qpower Qround Lqa Ascii.
From stdpp Require Import gmap strings list pretty.

#[local] Open Scope Z_scope.

(** ** Python primitives used by both programs *)

(** The float comparison [x < y]. *)
Definition Qltb (x y : Q) : bool := negb (Qle_bool y x).

(** The builtins [min(a, b)] and [max(a, b)]: the first argument is kept
    unless the second is strictly smaller (resp. larger). *)
Definition py_min (a b : Q) : Q := if Qltb b a then b else a.
Definition py_max (a b : Q) : Q := if Qltb a b then b else a.

(** Conversion of an [int] to [float], as the product [float * int] does
    it: [None] stands for [OverflowError], raised when the integer rounds
    beyond the largest double. *)
Definition float_of_int (n : Z) : option Q :=
  if Z.abs n <? 2 ^ 1024 - 2 ^ 970 then Some (inject_Z n) else None.

(** *** Rounding to a double

    A finite double is an integer multiple of [2 ^ -1074] whose quotient
    has at most 53 significant bits.  Arithmetic on doubles returns the
    double nearest to the exact result, ties going to the one with an even
    significand. *)

(** The integer nearest to [x], ties to the even one. *)
Definition round_half_even (x : Q) : Z :=
  let f := Qfloor x in
  match (x - inject_Z f ?= 1 # 2)%Q with
  | Lt => f
  | Gt => f + 1
  | Eq => if Z.even f then f else f + 1
  end.

(** For [0 <= s], the nearest integer to [s] with at most 53 significant
    bits: below [2 ^ 53] the integers themselves, from there on the
    multiples of [2 ^ k] in the binade [[2 ^ (52 + k), 2 ^ (53 + k))]. *)
Definition double_grid (s : Q) : Z :=
  let k := Z.max 0 (Z.log2 (Qfloor s) - 52) in
  round_half_even (s / inject_Z (2 ^ k)) * 2 ^ k.

(** The double nearest to [q], in lowest terms: [q] is counted in units
    of [2 ^ -1074], the spacing of the smallest doubles, and rounded on the
    grid of its binade.  Magnitudes beyond the largest double, where the
    hardware answers [inf], are rounded on their grid as well; the clock
    and the TTL of 300 seconds of the service stay far below them. *)
Definition round_double (q : Q) : Q :=
  let s := (q * inject_Z (2 ^ 1074))%Q in
  Qred (if Qltb s 0
        then inject_Z (- double_grid (- s)) / inject_Z (2 ^ 1074)
        else inject_Z (double_grid s) / inject_Z (2 ^ 1074)).

(** The sum [x + n] of a [float] and an [int]: the integer is converted to
    the nearest double, and the sum of the two doubles is rounded.  (An
    integer beyond the doubles, for which the conversion raises, is not a
    TTL the service is built with.) *)
Definition float_add_int (x : Q) (n : Z) : Q :=
  round_double (x + round_double (inject_Z n)).

(** No colon occurs in the string. *)
Fixpoint colon_free (s : string) : bool :=
  match s with
  | EmptyString => true
  | String a r => if Ascii.eqb a ":"%char then false else colon_free r
  end.

(** ** Receiving service: [src/edge/app.py] *)

Module Edge.

(** [class TelemetryMessage(BaseModel)] *)
Record TelemetryMessage := {
  device_id : string;
  sequence_id : Z;
  timestamp : string;
  temperature : option Q;
  humidity : option Q;
  pressure : option Q
}.

(** [class IngestResponse(BaseModel)] *)
Record IngestResponse := {
  status : string;
  message : string;
  correlation_id : string
}.

(** [class MessageCache]: [cache] maps a key to its expiry timestamp. *)
Record MessageCache := {
  cache : gmap string Q;
  ttl_seconds : Z
}.

(** [MessageCache(ttl_seconds)] *)
Definition MessageCache_init (ttl : Z) : MessageCache :=
  {| cache := ∅; ttl_seconds := ttl |}.

(** The f-string [f"{device_id}:{sequence_id}"]; [pretty] prints an integer
    the way [str(int)] does (decimal digits, a leading minus sign). *)
Definition cache_key (d : string) (s : Z) : string :=
  d +:+ ":" +:+ pretty s.

(** The test [v < now] of [_cleanup]. *)
Definition expired (now v : Q) : bool := Qltb v now.

(** [_cleanup]: every entry with [v < now] is deleted. *)
Definition _cleanup (now : Q) (c : MessageCache) : MessageCache :=
  {| cache := filter (λ kv, expired now kv.2 = false) (cache c);
     ttl_seconds := ttl_seconds c |}.

(** [has_seen]: clean up at the clock reading [now], then test membership. *)
Definition has_seen (now : Q) (d : string) (s : Z) (c : MessageCache)
  : bool * MessageCache :=
  let c' := _cleanup now c in
  (bool_decide (is_Some (cache c' !! cache_key d s)), c').

(** [mark_seen]: [self.cache[key] = time.time() + self.ttl_seconds], the
    sum of the clock reading, a [float], and the TTL, an [int]. *)
Definition mark_seen (now : Q) (d : string) (s : Z) (c : MessageCache)
  : MessageCache :=
  {| cache := <[cache_key d s := float_add_int now (ttl_seconds c)]> (cache c);
     ttl_seconds := ttl_seconds c |}.

(** [class Metrics]: in-memory counters. *)
Record Metrics := {
  received_total : Z;
  accepted_total : Z;
  duplicates_total : Z;
  rejected_total : Z;
  transient_503_total : Z
}.

Definition Metrics_init : Metrics :=
  {| received_total := 0; accepted_total := 0; duplicates_total := 0;
     rejected_total := 0; transient_503_total := 0 |}.

(** The module-level objects [message_cache] and [metrics]. *)
Record State := {
  message_cache : MessageCache;
  metrics : Metrics
}.

(** [message_cache = MessageCache(ttl_seconds=300)], [metrics = Metrics()]. *)
Definition initial_state : State :=
  {| message_cache := MessageCache_init 300; metrics := Metrics_init |}.

Definition OVERLOAD_PROBABILITY : Q := 1 # 10.

(** One line printed by [log_event]. *)
Record LogEntry := {
  level : string;
  event : string;
  log_correlation_id : string;
  log_device_id : string;
  log_sequence_id : Z;
  decision : option string;
  reason : option string
}.

(** What the endpoint hands back to the framework: the returned body
    (answered with status 200) or a raised [HTTPException]. *)
Inductive Response :=
  | Return (r : IngestResponse)
  | HTTPException (status_code : Z) (detail : string).

(** What one request reads from outside: [uuid.uuid4()], [random.random()],
    and the clock, once in [has_seen] (through [_cleanup]) and once more in
    [mark_seen]. *)
Record World := {
  uuid4 : string;
  random : Q;
  time_check : Q;
  time_mark : Q
}.

Record Reply := {
  response : Response;
  log : list LogEntry;
  after : State
}.

Definition log_event (lvl ev cid : string) (m : TelemetryMessage)
    (dec rsn : option string) : LogEntry :=
  {| level := lvl; event := ev; log_correlation_id := cid;
     log_device_id := device_id m; log_sequence_id := sequence_id m;
     decision := dec; reason := rsn |}.

(** The counter updates [metrics.x_total += 1]. *)
Definition incr_received (mt : Metrics) : Metrics :=
  {| received_total := received_total mt + 1;
     accepted_total := accepted_total mt;
     duplicates_total := duplicates_total mt;
     rejected_total := rejected_total mt;
     transient_503_total := transient_503_total mt |}.

Definition incr_accepted (mt : Metrics) : Metrics :=
  {| received_total := received_total mt;
     accepted_total := accepted_total mt + 1;
     duplicates_total := duplicates_total mt;
     rejected_total := rejected_total mt;
     transient_503_total := transient_503_total mt |}.

Definition incr_duplicates (mt : Metrics) : Metrics :=
  {| received_total := received_total mt;
     accepted_total := accepted_total mt;
     duplicates_total := duplicates_total mt + 1;
     rejected_total := rejected_total mt;
     transient_503_total := transient_503_total mt |}.

Definition incr_rejected (mt : Metrics) : Metrics :=
  {| received_total := received_total mt;
     accepted_total := accepted_total mt;
     duplicates_total := duplicates_total mt;
     rejected_total := rejected_total mt + 1;
     transient_503_total := transient_503_total mt |}.

Definition incr_transient_503 (mt : Metrics) : Metrics :=
  {| received_total := received_total mt;
     accepted_total := accepted_total mt;
     duplicates_total := duplicates_total mt;
     rejected_total := rejected_total mt;
     transient_503_total := transient_503_total mt + 1 |}.

Definition accepted_body (cid : string) : IngestResponse :=
  {| status := "accepted";
     message := "Telemetry ingested successfully";
     correlation_id := cid |}.

(** [ingest_telemetry]: the four gates, in the order of the source. *)
Definition ingest_telemetry (m : TelemetryMessage) (w : World) (st : State)
  : Reply :=
  let cid := uuid4 w in
  let mt := incr_received (metrics st) in
  let l0 := [log_event "INFO" "telemetry_received" cid m None None] in
  if Qltb (random w) OVERLOAD_PROBABILITY then
    {| response := HTTPException 503 "Service temporarily overloaded";
       log := l0 ++ [log_event "WARN" "overload_simulated" cid m
                       (Some "rejected_transient") (Some "simulated_backpressure")];
       after := {| message_cache := message_cache st;
                   metrics := incr_transient_503 mt |} |}
  else if sequence_id m <? 0 then
    {| response := HTTPException 400 "sequence_id must be >= 0";
       log := l0 ++ [log_event "ERROR" "validation_failed" cid m
                       (Some "rejected") (Some "invalid_sequence_id")];
       after := {| message_cache := message_cache st;
                   metrics := incr_rejected mt |} |}
  else
    let '(seen, c1) :=
      has_seen (time_check w) (device_id m) (sequence_id m) (message_cache st) in
    if seen then
      {| response := HTTPException 409 "Duplicate message";
         log := l0 ++ [log_event "INFO" "duplicate_detected" cid m
                         (Some "duplicate") (Some "already_processed")];
         after := {| message_cache := c1; metrics := incr_duplicates mt |} |}
    else
      let c2 := mark_seen (time_mark w) (device_id m) (sequence_id m) c1 in
      {| response := Return (accepted_body cid);
         log := l0 ++ [log_event "INFO" "telemetry_accepted" cid m
                         (Some "accepted") (Some "new_message")];
         after := {| message_cache := c2; metrics := incr_accepted mt |} |}.

(** The HTTP status the framework sends for a [Response]. *)
Definition http_status (r : Response) : Z :=
  match r with
  | Return _ => 200
  | HTTPException c _ => c
  end.

(** The protocol-level outcomes, read off the status as the endpoint's
    docstring lists them. *)
Inductive Outcome :=
  | Accepted
  | DuplicateAcknowledged
  | Rejected
  | Overloaded.

Definition outcome (r : Reply) : Outcome :=
  match response r with
  | Return _ => Accepted
  | HTTPException c _ =>
      if c =? 409 then DuplicateAcknowledged
      else if c =? 503 then Overloaded
      else Rejected
  end.

(** A request as it reaches the endpoint, with what its handling reads. *)
Record Request := {
  msg : TelemetryMessage;
  world : World
}.

(** Requests handled one after the other, each to completion. *)
Fixpoint run (reqs : list Request) (st : State) : list Reply * State :=
  match reqs with
  | [] => ([], st)
  | r :: rest =>
      let rp := ingest_telemetry (msg r) (world r) st in
      let '(rps, st') := run rest (after rp) in
      (rp :: rps, st')
  end.

(** The clock never runs backwards along a run: readings are taken in
    program order, starting no earlier than [lo]. *)
Fixpoint clock_from (lo : Q) (reqs : list Request) : Prop :=
  match reqs with
  | [] => True
  | r :: rest =>
      (lo <= time_check (world r))%Q ∧
      (time_check (world r) <= time_mark (world r))%Q ∧
      clock_from (time_mark (world r)) rest
  end.

(** The same request, with other clock readings. *)
Definition with_clock (w : World) (t1 t2 : Q) : World :=
  {| uuid4 := uuid4 w; random := random w; time_check := t1; time_mark := t2 |}.

(** Operations on the cache alone, as a client may issue them. *)
Inductive CacheOp :=
  | HasSeen (now : Q) (d : string) (s : Z)
  | MarkSeen (now : Q) (d : string) (s : Z).

Definition op_time (op : CacheOp) : Q :=
  match op with HasSeen now _ _ | MarkSeen now _ _ => now end.




(** *** Invariants of the cache, for the key [(d, s)] marked at [t0] *)

(** The entry of the key is there and expires no earlier than the mark at
    [t0] made it. *)
Definition entry_live (d : string) (s : Z) (t0 : Q) (ttl : Z)
    (c : MessageCache) : Prop :=
  ttl_seconds c = ttl ∧
  ∃ e, cache c !! cache_key d s = Some e ∧ (float_add_int t0 ttl <= e)%Q.

(** The entry of the key, if any, expires no later than the mark at [t0]
    made it. *)
Definition entry_stale (d : string) (s : Z) (t0 : Q) (ttl : Z)
    (c : MessageCache) : Prop :=
  ttl_seconds c = ttl ∧
  ∀ e, cache c !! cache_key d s = Some e → (e <= float_add_int t0 ttl)%Q.

(** The operation reads the clock after [t0] and no later than the expiry
    the mark at [t0] stored. *)
Definition within_ttl (t0 : Q) (ttl : Z) (op : CacheOp) : Prop :=
  (t0 <= op_time op)%Q ∧ (op_time op <= float_add_int t0 ttl)%Q.

(** What an acceptance of [(d, s)] with [mark_seen] at [t_acc] leaves
    behind, as long as the clock, now at least [lo], moves forward: the
    entry is there and expires no earlier than the expiry stored at
    [t_acc], or it was swept, which only a clock reading beyond that
    expiry does. *)
Definition accept_guard (d : string) (s : Z) (t_acc : Q) (ttl : Z)
    (lo : Q) (st : State) : Prop :=
  ttl_seconds (message_cache st) = ttl ∧ (t_acc <= lo)%Q ∧
  match cache (message_cache st) !! cache_key d s with
  | Some e => (float_add_int t_acc ttl <= e)%Q
  | None => (float_add_int t_acc ttl < lo)%Q
  end.

(** *** Requests served by several threads

    The endpoint is a plain [def], which the framework runs on a pool of
    worker threads; [message_cache] is shared and the code takes no lock.
    A request is followed through the two places where it touches the
    cache: the call of [has_seen] and the call of [mark_seen].  What a
    thread does between two such calls touches no shared data but the
    counters. *)
Inductive Thread :=
  | Start (r : Request)
  | Checked (r : Request)
  | Finished (rp : Response).

(** One thread runs up to and including its next cache operation. *)
Definition thread_step (t : Thread) (st : State) : Thread * State :=
  match t with
  | Start r =>
      let m := msg r in
      let w := world r in
      let mt := incr_received (metrics st) in
      if Qltb (random w) OVERLOAD_PROBABILITY then
        (Finished (HTTPException 503 "Service temporarily overloaded"),
         {| message_cache := message_cache st; metrics := incr_transient_503 mt |})
      else if sequence_id m <? 0 then
        (Finished (HTTPException 400 "sequence_id must be >= 0"),
         {| message_cache := message_cache st; metrics := incr_rejected mt |})
      else
        let '(seen, c1) :=
          has_seen (time_check w) (device_id m) (sequence_id m) (message_cache st) in
        if seen then
          (Finished (HTTPException 409 "Duplicate message"),
           {| message_cache := c1; metrics := incr_duplicates mt |})
        else
          (Checked r, {| message_cache := c1; metrics := mt |})
  | Checked r =>
      let m := msg r in
      let w := world r in
      (Finished (Return (accepted_body (uuid4 w))),
       {| message_cache :=
            mark_seen (time_mark w) (device_id m) (sequence_id m) (message_cache st);
          metrics := incr_accepted (metrics st) |})
  | Finished _ => (t, st)
  end.

(** A schedule names, step by step, the thread that runs next. *)
Fixpoint exec (schedule : list nat) (ts : list Thread) (st : State)
  : list Thread * State :=
  match schedule with
  | [] => (ts, st)
  | i :: rest =>
      match ts !! i with
      | Some t =>
          let '(t', st') := thread_step t st in
          exec rest (<[i := t']> ts) st'
      | None => exec rest ts st
      end
  end.

(** The schedule on which every request runs to completion before the
    next one starts: thread [0] twice, then thread [1] twice, ... *)
Definition serial (n : nat) : list nat :=
  flat_map (λ i, [i; i]) (seq 0 n).

Definition thread_outcome (t : Thread) : option Outcome :=
  match t with
  | Finished (Return _) => Some Accepted
  | Finished (HTTPException c _) =>
      Some (if c =? 409 then DuplicateAcknowledged
            else if c =? 503 then Overloaded
            else Rejected)
  | _ => None
  end.

(** *** The counters, as [/metrics] reports them *)

(** [Metrics.to_dict] *)
Definition to_dict (mt : Metrics) : gmap string Z :=
  {[ "received_total" := received_total mt;
     "accepted_total" := accepted_total mt;
     "duplicates_total" := duplicates_total mt;
     "rejected_total" := rejected_total mt;
     "transient_503_total" := transient_503_total mt ]}.

(** [get_metrics] *)
Definition get_metrics (st : State) : gmap string Z := to_dict (metrics st).

#[global] Instance Outcome_eq_dec : EqDecision Outcome.
Proof. solve_decision. Defined.

(** How many of the replies have the outcome [o]. *)
Definition tally (o : Outcome) (rps : list Reply) : Z :=
  Z.of_nat (length (filter (λ rp, outcome rp = o) rps)).

End Edge.

(** ** Sending device: [src/device/simulated_device.py] *)

Module Device.

Definition DEVICE_ID : string := "device-001".
Definition TELEMETRY_INTERVAL_SECONDS : Q := 3.
Definition PACKET_DROP_PROBABILITY : Q := 15 # 100.
Definition JITTER_PROBABILITY : Q := 20 # 100.
Definition MAX_JITTER_SECONDS : Q := 2.
Definition DUPLICATE_PROBABILITY : Q := 10 # 100.
Definition MAX_RETRIES : Z := 5.
Definition BASE_BACKOFF_SECONDS : Q := 1.
Definition MAX_BACKOFF_SECONDS : Q := 30.
Definition BACKOFF_JITTER_RANGE : Q := 1 # 2.

(** The dict built by [generate_telemetry]. *)
Record Telemetry := {
  device_id : string;
  sequence_id : Z;
  timestamp : string;
  temperature : Q;
  humidity : Q;
  pressure : Q
}.

(** What [generate_telemetry] reads: the clock and three [random.uniform]
    samples (already rounded). *)
Record Readings := {
  utcnow : string;
  sample_temperature : Q;
  sample_humidity : Q;
  sample_pressure : Q
}.

Definition generate_telemetry (sequence_id : Z) (r : Readings) : Telemetry :=
  {| device_id := DEVICE_ID;
     sequence_id := sequence_id;
     timestamp := utcnow r;
     temperature := sample_temperature r;
     humidity := sample_humidity r;
     pressure := sample_pressure r |}.

(** The exceptions the code tells apart: [requests.exceptions.Timeout]
    (first handler), [requests.exceptions.ConnectionError] (second handler)
    and every other [Exception], here with its class name. *)
Inductive Exn :=
  | Timeout
  | ConnectionError
  | OtherException (name : string).

(** The body of a response, as far as [response.json().get(..)] can tell:
    [response.json()] raises on a body that is not JSON, and [.get] exists
    on a decoded object only. *)
Inductive Body :=
  | NotJson
  | JsonNonObject
  | JsonObject (correlation_id : option string).

(** [response.json().get("correlation_id")] *)
Definition json_get_correlation_id (b : Body) : Exn + option string :=
  match b with
  | NotJson => inl (OtherException "JSONDecodeError")
  | JsonNonObject => inl (OtherException "AttributeError")
  | JsonObject cid => inr cid
  end.

(** What [requests.post] does: it returns a response or raises. *)
Inductive HttpResult :=
  | Responded (status_code : Z) (body : Body)
  | Raised (e : Exn).

(** Observable effects, in program order.  [Decide f b] is one call of
    [simulate_packet_drop], [simulate_jitter] or [simulate_duplicate], with
    whether the fault was triggered. *)
Inductive Fault := Drop | Jitter | Duplicate.

Inductive Effect :=
  | Log (level event : string)
  | Decide (f : Fault) (fired : bool)
  | Post (t : Telemetry)
  | Sleep (seconds : Q).

(** [2 ** attempt]: an [int] for a non-negative exponent, else a [float]. *)
Inductive PyNum :=
  | PyInt (n : Z)
  | PyFloat (x : Q).

Definition pow2 (attempt : Z) : PyNum :=
  if 0 <=? attempt then PyInt (2 ^ attempt) else PyFloat (Qpower 2 attempt).

(** [BASE_BACKOFF_SECONDS * (2 ** attempt)] *)
Definition base_times (n : PyNum) : option Q :=
  match n with
  | PyInt k => x ← float_of_int k; Some (BASE_BACKOFF_SECONDS * x)%Q
  | PyFloat x => Some (BASE_BACKOFF_SECONDS * x)%Q
  end.

(** [calculate_backoff]; [u] is the sample
    [random.uniform(-BACKOFF_JITTER_RANGE, BACKOFF_JITTER_RANGE)]. *)
Definition calculate_backoff (attempt : Z) (u : Q) : option Q :=
  x ← base_times (pow2 attempt);
  let backoff := py_min x MAX_BACKOFF_SECONDS in
  let jitter := (backoff * u)%Q in
  Some (py_max (1 # 10) (backoff + jitter)%Q).

(** The delay [calculate_backoff] returns when the power of two converts:
    the capped value, perturbed and floored. *)
Definition capped_backoff (attempt : Z) : Q :=
  py_min (BASE_BACKOFF_SECONDS * inject_Z (2 ^ attempt)) MAX_BACKOFF_SECONDS.

Definition jittered_backoff (attempt : Z) (u : Q) : Q :=
  py_max (1 # 10) (capped_backoff attempt + capped_backoff attempt * u).

(** [is_transient_error]; a status code of [0] is falsy, an exception
    object is always truthy. *)
Definition is_transient_error (status_code : option Z) (exception : option Exn)
  : bool :=
  match exception with
  | Some Timeout | Some ConnectionError => true
  | Some (OtherException _) => false
  | None =>
      match status_code with
      | Some c =>
          if c =? 0 then false
          else if bool_decide (c ∈ [429; 503; 504]) then true
          else if bool_decide (c ∈ [400; 401; 403; 409]) then false
          else false
      | None => false
      end
  end.

(** How a call of [send_with_retry] ends. *)
Inductive Completion :=
  | Returned (b : bool)
  | Raising (e : Exn).

(** What one attempt reads from outside: the result of [requests.post] and,
    if a backoff is computed, its jitter sample. *)
Record AttemptWorld := {
  post_result : HttpResult;
  backoff_sample : Q
}.

Definition prefix (es : list Effect) (k : list Effect * Completion)
  : list Effect * Completion :=
  (es ++ k.1, k.2).

(** The retry arm shared by the three transient branches: compute the
    backoff, log, sleep, [continue].  An [OverflowError] of
    [calculate_backoff] is caught by [except Exception] when raised in the
    [try] body and escapes when raised in an [except] handler. *)
Definition backoff_then (in_try : bool) (attempt : Z) (u : Q)
    (continue : list Effect * Completion) : list Effect * Completion :=
  match calculate_backoff attempt u with
  | Some backoff =>
      prefix [Log "INFO" "retrying_after_backoff"; Sleep backoff] continue
  | None =>
      if in_try then ([Log "ERROR" "unexpected_error"], Returned false)
      else ([], Raising (OtherException "OverflowError"))
  end.

(** The body of [for attempt in range(MAX_RETRIES + 1)], over the attempts
    still to be made; falling out of the loop is the final [return False]. *)
Fixpoint send_loop (telemetry : Telemetry) (w : Z → AttemptWorld)
    (attempts : list Z) : list Effect * Completion :=
  match attempts with
  | [] => ([], Returned false)
  | attempt :: rest =>
      let continue := send_loop telemetry w rest in
      let u := backoff_sample (w attempt) in
      prefix [Log "INFO" "sending_telemetry"; Post telemetry]
        match post_result (w attempt) with
        | Responded code body =>
            if code =? 200 then
              match json_get_correlation_id body with
              | inr _ => ([Log "INFO" "telemetry_sent_success"], Returned true)
              | inl _ => ([Log "ERROR" "unexpected_error"], Returned false)
              end
            else if code =? 409 then
              ([Log "INFO" "duplicate_acknowledged"], Returned true)
            else if is_transient_error (Some code) None then
              prefix [Log "WARN" "transient_error_received"]
                (if attempt <? MAX_RETRIES then backoff_then true attempt u continue
                 else ([Log "ERROR" "max_retries_exceeded"], Returned false))
            else ([Log "ERROR" "non_transient_error"], Returned false)
        | Raised Timeout =>
            prefix [Log "WARN" "request_timeout"]
              (if attempt <? MAX_RETRIES then backoff_then false attempt u continue
               else ([Log "ERROR" "max_retries_exceeded_timeout"], Returned false))
        | Raised ConnectionError =>
            prefix [Log "WARN" "connection_error"]
              (if attempt <? MAX_RETRIES then backoff_then false attempt u continue
               else ([Log "ERROR" "max_retries_exceeded_connection"], Returned false))
        | Raised (OtherException _) =>
            ([Log "ERROR" "unexpected_error"], Returned false)
        end
  end.

(** [range(n)] *)
Definition range (n : Z) : list Z := seqZ 0 n.

Definition send_with_retry (telemetry : Telemetry) (w : Z → AttemptWorld)
  : list Effect * Completion :=
  send_loop telemetry w (range (MAX_RETRIES + 1)).

(** [simulate_packet_drop], [simulate_jitter], [simulate_duplicate]; each
    takes its [random.random()] sample, [simulate_jitter] also its
    [random.uniform(0.1, MAX_JITTER_SECONDS)] sample. *)
Definition simulate_packet_drop (r : Q) : list Effect * bool :=
  if Qltb r PACKET_DROP_PROBABILITY
  then ([Decide Drop true; Log "WARN" "packet_dropped"], true)
  else ([Decide Drop false], false).

Definition simulate_jitter (r delay : Q) : list Effect :=
  if Qltb r JITTER_PROBABILITY
  then [Decide Jitter true; Log "INFO" "jitter_applied"; Sleep delay]
  else [Decide Jitter false].

Definition simulate_duplicate (r : Q) : list Effect * bool :=
  if Qltb r DUPLICATE_PROBABILITY
  then ([Decide Duplicate true; Log "WARN" "duplicate_triggered"], true)
  else ([Decide Duplicate false], false).

(** What one pass through the body of [while True] reads from outside. *)
Record CycleWorld := {
  readings : Readings;
  drop_sample : Q;
  jitter_sample : Q;
  jitter_delay : Q;
  first_send : Z → AttemptWorld;
  duplicate_sample : Q;
  second_send : Z → AttemptWorld
}.

(** One pass through the body of [while True] in [main]: the effects, and
    the next [sequence_id], or the exception that ends the process. *)
Definition main_cycle (sequence_id : Z) (w : CycleWorld)
  : list Effect * (Exn + Z) :=
  let telemetry := generate_telemetry sequence_id (readings w) in
  let '(e_drop, dropped) := simulate_packet_drop (drop_sample w) in
  if dropped then
    (e_drop ++ [Sleep TELEMETRY_INTERVAL_SECONDS], inr (sequence_id + 1))
  else
    let e_jit := simulate_jitter (jitter_sample w) (jitter_delay w) in
    let '(e_send, r1) := send_with_retry telemetry (first_send w) in
    match r1 with
    | Raising e => (e_drop ++ e_jit ++ e_send, inl e)
    | Returned _ =>
        let '(e_dup, again) := simulate_duplicate (duplicate_sample w) in
        if again then
          let '(e_resend, r2) := send_with_retry telemetry (second_send w) in
          match r2 with
          | Raising e =>
              (e_drop ++ e_jit ++ e_send ++ e_dup ++ [Sleep (1 # 2)] ++ e_resend,
               inl e)
          | Returned _ =>
              (e_drop ++ e_jit ++ e_send ++ e_dup ++ [Sleep (1 # 2)] ++ e_resend
                 ++ [Sleep TELEMETRY_INTERVAL_SECONDS],
               inr (sequence_id + 1))
          end
        else
          (e_drop ++ e_jit ++ e_send ++ e_dup ++ [Sleep TELEMETRY_INTERVAL_SECONDS],
           inr (sequence_id + 1))
    end.

(** [main]: the loop run over the cycles given, from [sequence_id = 0]. *)
Fixpoint main_from (sequence_id : Z) (cycles : list CycleWorld)
  : list Effect :=
  match cycles with
  | [] => []
  | w :: rest =>
      let '(es, next) := main_cycle sequence_id w in
      match next with
      | inr sequence_id' => es ++ main_from sequence_id' rest
      | inl _ => es
      end
  end.

Definition main (cycles : list CycleWorld) : list Effect :=
  Log "INFO" "device_starting" :: main_from 0 cycles.

(** Counting effects in a trace. *)
Definition is_post (e : Effect) : bool :=
  match e with Post _ => true | _ => false end.

Definition is_sleep (e : Effect) : bool :=
  match e with Sleep _ => true | _ => false end.

Definition is_decide (f : Fault) (e : Effect) : bool :=
  match e, f with
  | Decide Drop _, Drop | Decide Jitter _, Jitter
  | Decide Duplicate _, Duplicate => true
  | _, _ => false
  end.

Definition count (p : Effect → bool) (tr : list Effect) : nat :=
  length (filter (λ e, p e = true) tr).

(** The results of [requests.post] that take one of the three retry arms
    of [send_with_retry]. *)
Definition transient_outcome (r : HttpResult) : bool :=
  match r with
  | Responded code _ => bool_decide (code ∈ [429; 503; 504])
  | Raised Timeout | Raised ConnectionError => true
  | Raised (OtherException _) => false
  end.

(** The log lines of the three retry arms. *)
Definition transient_event (r : HttpResult) : string :=
  match r with
  | Responded _ _ => "transient_error_received"
  | Raised Timeout => "request_timeout"
  | Raised _ => "connection_error"
  end.

Definition exhausted_event (r : HttpResult) : string :=
  match r with
  | Responded _ _ => "max_retries_exceeded"
  | Raised Timeout => "max_retries_exceeded_timeout"
  | Raised _ => "max_retries_exceeded_connection"
  end.

(** What an attempt with a transient result leaves in the trace, when it
    is retried after [backoff] seconds and when it is the last one. *)
Definition retry_effects (t : Telemetry) (r : HttpResult) (backoff : Q)
  : list Effect :=
  [Log "INFO" "sending_telemetry"; Post t; Log "WARN" (transient_event r);
   Log "INFO" "retrying_after_backoff"; Sleep backoff].

Definition last_effects (t : Telemetry) (r : HttpResult) : list Effect :=
  [Log "INFO" "sending_telemetry"; Post t; Log "WARN" (transient_event r);
   Log "ERROR" (exhausted_event r)].

(** Following the spec's words (retry loop of the DeliveryAgent): every
    transmission is preceded, since the transmission before it, by a drop
    decision and then a delay decision. *)
Fixpoint decided_before_each_post (drop jitter : bool) (tr : list Effect)
  : bool :=
  match tr with
  | [] => true
  | Decide Drop _ :: rest => decided_before_each_post true false rest
  | Decide Jitter _ :: rest => decided_before_each_post drop drop rest
  | Post _ :: rest => drop && jitter && decided_before_each_post false false rest
  | _ :: rest => decided_before_each_post drop jitter rest
  end.

(** Following the spec's words (duplicate decision of the caller): when
    the first [send_with_retry] of a cycle reports failure, the duplicate
    decision is not evaluated and nothing more is transmitted. *)
Definition duplicate_only_after_delivery (sequence_id : Z) (w : CycleWorld)
  : Prop :=
  let telemetry := generate_telemetry sequence_id (readings w) in
  let first := send_with_retry telemetry (first_send w) in
  first.2 = Returned false →
  count (is_decide Duplicate) (main_cycle sequence_id w).1 = 0%nat ∧
  count is_post (main_cycle sequence_id w).1 = count is_post first.1.

(** The effects a call of [send_with_retry telemetry] can have: log
    lines, sleeps, and posts of [telemetry] itself. *)
Definition send_effect (telemetry : Telemetry) (e : Effect) : Prop :=
  match e with
  | Post t => t = telemetry
  | Decide _ _ => False
  | Log _ _ | Sleep _ => True
  end.

(** *** How an attempt that is not retried ends the call *)

(** What [send_with_retry] returns when the attempt is its last: True on
    status 200 when the body yields the correlation id for the log line,
    True on 409, False on anything else. *)
Definition delivered (r : HttpResult) : bool :=
  match r with
  | Responded code body =>
      if code =? 200 then
        match json_get_correlation_id body with
        | inr _ => true
        | inl _ => false
        end
      else code =? 409
  | Raised _ => false
  end.

(** The log line of that attempt. *)
Definition decisive_log (r : HttpResult) : Effect :=
  match r with
  | Responded code body =>
      if code =? 200 then
        match json_get_correlation_id body with
        | inr _ => Log "INFO" "telemetry_sent_success"
        | inl _ => Log "ERROR" "unexpected_error"
        end
      else if code =? 409 then Log "INFO" "duplicate_acknowledged"
      else Log "ERROR" "non_transient_error"
  | Raised _ => Log "ERROR" "unexpected_error"
  end.

(** What attempt [a] leaves in the trace when it is retried. *)
Definition retry_of (t : Telemetry) (w : Z → AttemptWorld) (a : Z)
  : list Effect :=
  retry_effects t (post_result (w a))
    (jittered_backoff a (backoff_sample (w a))).

(** The seconds slept along a trace. *)
Definition total_sleep (tr : list Effect) : Q :=
  foldr (λ e acc, match e with Sleep d => (d + acc)%Q | _ => acc end) 0%Q tr.

(** The two arguments [is_transient_error] would be given for a result. *)
Definition observed_status (r : HttpResult) : option Z :=
  match r with Responded code _ => Some code | Raised _ => None end.

Definition observed_exception (r : HttpResult) : option Exn :=
  match r with Responded _ _ => None | Raised e => Some e end.

(** The effects of a cycle for [telemetry]: whatever is posted is
    [telemetry]. *)
Definition cycle_effect (telemetry : Telemetry) (e : Effect) : Prop :=
  match e with
  | Post t => t = telemetry
  | _ => True
  end.

End Device.

(** ** The device talking to the service

    The two programs, joined by a network that delivers every request and
    every reply: the JSON payload of [requests.post] is parsed into a
    [TelemetryMessage], a returned [IngestResponse] comes back as status
    200 with a JSON object holding its [correlation_id], and a raised
    [HTTPException] comes back as its status code with a JSON object
    holding the detail. *)

Module Link.

Definition to_message (t : Device.Telemetry) : Edge.TelemetryMessage :=
  {| Edge.device_id := Device.device_id t;
     Edge.sequence_id := Device.sequence_id t;
     Edge.timestamp := Device.timestamp t;
     Edge.temperature := Some (Device.temperature t);
     Edge.humidity := Some (Device.humidity t);
     Edge.pressure := Some (Device.pressure t) |}.

Definition http_of (r : Edge.Response) : Device.HttpResult :=
  match r with
  | Edge.Return body =>
      Device.Responded 200 (Device.JsonObject (Some (Edge.correlation_id body)))
  | Edge.HTTPException code _ =>
      Device.Responded code (Device.JsonObject None)
  end.

Definition requests_of (t : Device.Telemetry) (ews : list Edge.World)
  : list Edge.Request :=
  (λ w, {| Edge.msg := to_message t; Edge.world := w |}) <$> ews.

(** What the service answers to the successive posts of [t], the [i]-th
    post being handled with the readings [ews !! i]. *)
Definition served (t : Device.Telemetry) (ews : list Edge.World)
    (st : Edge.State) : list Edge.Reply * Edge.State :=
  Edge.run (requests_of t ews) st.

(** What the device observes at each attempt; there is no answer beyond
    the readings given. *)
Definition network (t : Device.Telemetry) (ews : list Edge.World)
    (st : Edge.State) (samples : Z → Q) : Z → Device.AttemptWorld :=
  λ attempt,
    {| Device.post_result :=
         match (if 0 <=? attempt then (served t ews st).1 !! Z.to_nat attempt
                else None) with
         | Some rp => http_of (Edge.response rp)
         | None => Device.Raised Device.ConnectionError
         end;
       Device.backoff_sample := samples attempt |}.

(** One call of [send_with_retry] against the service: what the device
    does and returns, and the state of the service once it has handled
    the posts the device made. *)
Definition deliver (t : Device.Telemetry) (ews : list Edge.World)
    (st : Edge.State) (samples : Z → Q)
  : (list Device.Effect * Device.Completion) * Edge.State :=
  let out := Device.send_with_retry t (network t ews st samples) in
  (out, (served t (take (Device.count Device.is_post out.1) ews) st).2).

(** The overload gate fires on the reading. *)
Definition overloaded (w : Edge.World) : Prop :=
  Qltb (Edge.random w) Edge.OVERLOAD_PROBABILITY = true.

End Link.

(** ** Concrete inputs *)

Module Examples.

(** A message with sequence number [n], as the device builds it. *)
Definition message (n : Z) : Edge.TelemetryMessage :=
  {| Edge.device_id := "device-001"; Edge.sequence_id := n;
     Edge.timestamp := "2025-01-01T00:00:00Z";
     Edge.temperature := Some (215 # 10); Edge.humidity := Some (40 # 1);
     Edge.pressure := Some (1000 # 1) |}.

(** A request handled at clock reading [t], with no overload. *)
Definition world_at (id : string) (t : Q) : Edge.World :=
  {| Edge.uuid4 := id; Edge.random := 1 # 2;
     Edge.time_check := t; Edge.time_mark := t |}.

Definition request (n : Z) (id : string) (t : Q) : Edge.Request :=
  {| Edge.msg := message n; Edge.world := world_at id t |}.

(** A request on which the overload gate fires. *)
Definition overloaded_request (n : Z) (id : string) (t : Q) : Edge.Request :=
  {| Edge.msg := message n;
     Edge.world := {| Edge.uuid4 := id; Edge.random := 0 # 1;
                      Edge.time_check := t; Edge.time_mark := t |} |}.

(** Message 7 is handled at 100 s; the clock is then moved to 500 s, where
    message 8 is handled, and set back to 200 s, where message 7 arrives
    again. *)
Definition clock_set_back : list Edge.Request :=
  [request 7 "a" (100 # 1); request 8 "b" (500 # 1); request 7 "c" (200 # 1)].


(** Two deliveries of message 7, one second apart. *)
Definition racing : list Edge.Thread :=
  [Edge.Start (request 7 "a" (100 # 1)); Edge.Start (request 7 "b" (101 # 1))].

(** Both threads call [has_seen] before either calls [mark_seen]. *)
Definition interleaved : list nat := [0; 1; 0; 1]%nat.

Definition readings0 : Device.Readings :=
  {| Device.utcnow := "2025-01-01T00:00:00Z";
     Device.sample_temperature := 215 # 10;
     Device.sample_humidity := 40 # 1;
     Device.sample_pressure := 1000 # 1 |}.

(** Every attempt gets the same result. *)
Definition always (r : Device.HttpResult) : Z → Device.AttemptWorld :=
  λ _, {| Device.post_result := r; Device.backoff_sample := 0 # 1 |}.

Definition accepted_reply : Device.HttpResult :=
  Device.Responded 200 (Device.JsonObject (Some "c0ffee")).

(** The first attempt is answered 503, the next ones 200. *)
Definition overloaded_once : Z → Device.AttemptWorld :=
  λ attempt,
    {| Device.post_result :=
         if attempt =? 0 then Device.Responded 503 Device.NotJson
         else accepted_reply;
       Device.backoff_sample := 0 # 1 |}.

(** A cycle with no injected fault whose first attempt meets an overload. *)
Definition cycle_with_retry : Device.CycleWorld :=
  {| Device.readings := readings0;
     Device.drop_sample := 1 # 2;
     Device.jitter_sample := 1 # 2;
     Device.jitter_delay := 1 # 1;
     Device.first_send := overloaded_once;
     Device.duplicate_sample := 1 # 2;
     Device.second_send := always accepted_reply |}.

(** A cycle whose message is refused with 400 and whose duplicate
    decision triggers. *)
Definition cycle_refused_then_duplicated : Device.CycleWorld :=
  {| Device.readings := readings0;
     Device.drop_sample := 1 # 2;
     Device.jitter_sample := 1 # 2;
     Device.jitter_delay := 1 # 1;
     Device.first_send := always (Device.Responded 400 Device.NotJson);
     Device.duplicate_sample := 0 # 1;
     Device.second_send := always (Device.Responded 400 Device.NotJson) |}.

End Examples.

(** ** Comparisons *)

Lemma Qltb_true x y : Qltb x y = true ↔ (x < y)%Q.
Proof.
  unfold Qltb. rewrite negb_true_iff, <- not_true_iff_false, Qle_bool_iff.
  split; [apply Qnot_le_lt | apply Qlt_not_le].
Qed.

Lemma Qltb_false x y : Qltb x y = false ↔ (y <= x)%Q.
Proof. unfold Qltb. rewrite negb_false_iff. apply Qle_bool_iff. Qed.

(** ** Rounding is monotone *)

Lemma round_half_even_near x :
  (x - (1 # 2) <= inject_Z (round_half_even x))%Q ∧
  (inject_Z (round_half_even x) <= x + (1 # 2))%Q.
Proof.
  unfold round_half_even.
  pose proof (Qfloor_le x) as Hlo. pose proof (Qlt_floor x) as Hhi.
  rewrite inject_Z_plus in Hhi. change (inject_Z 1) with 1%Q in Hhi.
  destruct (Qcompare_spec (x - inject_Z (Qfloor x)) (1 # 2)) as [E|E|E].
  - destruct (Z.even (Qfloor x)).
    + split; lra.
    + rewrite inject_Z_plus. change (inject_Z 1) with 1%Q. split; lra.
  - split; lra.
  - rewrite inject_Z_plus. change (inject_Z 1) with 1%Q. split; lra.
Qed.

Lemma round_half_even_mono x y :
  (x <= y)%Q → round_half_even x ≤ round_half_even y.
Proof.
  intros Hxy.
  destruct (Z_le_gt_dec (round_half_even x) (round_half_even y)) as [|Hgt];
    [done|exfalso].
  destruct (round_half_even_near x) as [_ Hx].
  destruct (round_half_even_near y) as [Hy _].
  assert (round_half_even y + 1 ≤ round_half_even x) as Hz by lia.
  rewrite Zle_Qle, inject_Z_plus in Hz. change (inject_Z 1) with 1%Q in Hz.
  assert (x == y)%Q as Heq by lra.
  assert (round_half_even x = round_half_even y) as E.
  { unfold round_half_even. rewrite (Qfloor_comp _ _ Heq).
    assert ((x - inject_Z (Qfloor y) ?= 1 # 2)%Q
            = (y - inject_Z (Qfloor y) ?= 1 # 2)%Q) as ->; [|done].
    by rewrite Heq. }
  lia.
Qed.

Lemma round_half_even_int n : round_half_even (inject_Z n) = n.
Proof.
  unfold round_half_even. rewrite Qfloor_Z.
  destruct (Qcompare_spec (inject_Z n - inject_Z n) (1 # 2)) as [E|E|E];
    [lra| done |lra].
Qed.

Lemma inject_pow2_pos k : 0 ≤ k → (0 < inject_Z (2 ^ k))%Q.
Proof.
  intros Hk. assert (0 < 2 ^ k) as H by (apply Z.pow_pos_nonneg; lia).
  rewrite Zlt_Qlt in H. exact H.
Qed.

(** Within a binade the grid is uniform; across binades, the power of two
    that separates them is on both grids. *)
Lemma double_grid_mono s1 s2 :
  (0 <= s1)%Q → (s1 <= s2)%Q → double_grid s1 ≤ double_grid s2.
Proof.
  intros H0 H12. unfold double_grid.
  set (l1 := Z.log2 (Qfloor s1)). set (l2 := Z.log2 (Qfloor s2)).
  set (k1 := Z.max 0 (l1 - 52)). set (k2 := Z.max 0 (l2 - 52)).
  assert (Qfloor s1 ≤ Qfloor s2) as Hf by (by apply Qfloor_resp_le).
  assert (l1 ≤ l2) as Hl by (by apply Z.log2_le_mono).
  assert (0 ≤ k1 ∧ 0 ≤ k2 ∧ k1 ≤ k2) as (Hk1 & Hk2 & Hk) by lia.
  pose proof (inject_pow2_pos k1 Hk1) as Hp1.
  pose proof (inject_pow2_pos k2 Hk2) as Hp2.
  destruct (decide (k1 = k2)) as [E|E].
  - rewrite <- E. apply Z.mul_le_mono_nonneg_r; [apply Z.pow_nonneg; lia|].
    apply round_half_even_mono.
    apply Qmult_le_compat_r; [done|]. apply Qlt_le_weak, Qinv_lt_0_compat, Hp1.
  - assert (k1 + 1 ≤ k2) as Hlt by lia.
    trans (2 ^ 53 * 2 ^ k1).
    + apply Z.mul_le_mono_nonneg_r; [apply Z.pow_nonneg; lia|].
      rewrite <- (round_half_even_int (2 ^ 53)).
      apply round_half_even_mono.
      apply Qle_shift_div_r; [done|].
      rewrite <- inject_Z_mult, <- Z.pow_add_r by lia.
      assert (Qfloor s1 < 2 ^ (53 + k1)) as Hfl.
      { destruct (Z_le_gt_dec (Qfloor s1) 0) as [Hz|Hz].
        - assert (0 < 2 ^ (53 + k1)) by (apply Z.pow_pos_nonneg; lia). lia.
        - destruct (Z.log2_spec (Qfloor s1)) as [_ Hs]; [lia|]. fold l1 in Hs.
          assert (2 ^ Z.succ l1 ≤ 2 ^ (53 + k1)); [|lia].
          apply Z.pow_le_mono_r; lia. }
      pose proof (Qlt_floor s1) as Hs1.
      assert (Qfloor s1 + 1 ≤ 2 ^ (53 + k1)) as Hle by lia.
      rewrite Zle_Qle in Hle. lra.
    + trans (2 ^ 52 * 2 ^ k2).
      * rewrite <- !Z.pow_add_r by lia. apply Z.pow_le_mono_r; lia.
      * apply Z.mul_le_mono_nonneg_r; [apply Z.pow_nonneg; lia|].
        rewrite <- (round_half_even_int (2 ^ 52)) at 1.
        apply round_half_even_mono.
        apply Qle_shift_div_l; [done|].
        rewrite <- inject_Z_mult, <- Z.pow_add_r by lia.
        assert (k2 = l2 - 52) as Ek by lia.
        assert (0 < Qfloor s2) as Hpos.
        { destruct (Z_le_gt_dec (Qfloor s2) 0) as [Hz|Hz]; [|lia].
          assert (l2 = 0); [|lia]. unfold l2.
          destruct (Z.log2_null (Qfloor s2)) as [_ ->]; lia. }
        destruct (Z.log2_spec (Qfloor s2) Hpos) as [Hs _]. fold l2 in Hs.
        replace (52 + k2) with l2 by lia.
        pose proof (Qfloor_le s2) as Hs2. rewrite Zle_Qle in Hs.
        exact (Qle_trans _ _ _ Hs Hs2).
Qed.

Lemma double_grid_nonneg s : (0 <= s)%Q → 0 ≤ double_grid s.
Proof.
  intros Hs. unfold double_grid.
  apply Z.mul_nonneg_nonneg; [|apply Z.pow_nonneg; lia].
  trans (round_half_even (inject_Z 0)); [by rewrite round_half_even_int|].
  apply round_half_even_mono.
  apply Qle_shift_div_l; [apply inject_pow2_pos; lia|].
  change (inject_Z 0) with 0%Q. rewrite Qmult_0_l. exact Hs.
Qed.

Lemma round_double_mono x y : (x <= y)%Q → (round_double x <= round_double y)%Q.
Proof.
  intros Hxy. unfold round_double. rewrite !Qred_correct.
  assert (0 < inject_Z (2 ^ 1074))%Q as Hc by (apply inject_pow2_pos; lia).
  set (c := inject_Z (2 ^ 1074)) in *.
  assert (x * c <= y * c)%Q as Hs by (apply Qmult_le_compat_r; lra).
  assert (∀ a b : Z, a ≤ b → (inject_Z a / c <= inject_Z b / c)%Q) as Hdiv.
  { intros a b Hab. apply Qmult_le_compat_r; [by rewrite <- Zle_Qle|].
    apply Qlt_le_weak, Qinv_lt_0_compat, Hc. }
  destruct (Qltb (x * c) 0) eqn:Ex, (Qltb (y * c) 0) eqn:Ey;
    rewrite ?Qltb_true, ?Qltb_false in *; apply Hdiv.
  - assert (double_grid (- (y * c)) ≤ double_grid (- (x * c))); [|lia].
    apply double_grid_mono; lra.
  - assert (0 <= - (x * c))%Q as Hn by lra.
    pose proof (double_grid_nonneg _ Hn). pose proof (double_grid_nonneg _ Ey).
    lia.
  - lra.
  - by apply double_grid_mono.
Qed.

(** Equal rationals round to the same double, as the same fraction. *)
Lemma round_double_comp x y : (x == y)%Q → round_double x = round_double y.
Proof.
  intros Hxy. apply Qred_complete.
  assert (round_double x <= round_double y)%Q by (apply round_double_mono; lra).
  assert (round_double y <= round_double x)%Q by (apply round_double_mono; lra).
  unfold round_double in *. rewrite !Qred_correct in *. lra.
Qed.


(** A later clock reading gives a later expiry, or the same. *)
Lemma float_add_int_mono x y n :
  (x <= y)%Q → (float_add_int x n <= float_add_int y n)%Q.
Proof. intros Hxy. unfold float_add_int. apply round_double_mono. lra. Qed.

(** With the TTL of the service, the expiry of a clock reading in the range
    of the doubles is in that range. *)
Lemma float_add_int_finite now :
  (0 <= now)%Q → (now <= inject_Z (2 ^ 1023))%Q →
  (300 <= float_add_int now 300)%Q ∧
  (float_add_int now 300 <= inject_Z (2 ^ 1023))%Q.
Proof.
  intros Hlo Hhi. split.
  - apply Qle_trans with (float_add_int 0 300); [by vm_compute|].
    by apply float_add_int_mono.
  - apply Qle_trans with (float_add_int (inject_Z (2 ^ 1023)) 300);
      [by apply float_add_int_mono | by vm_compute].
Qed.


(** ** Properties of the receiving service *)

Module EdgeFacts.
Import Edge.

(** *** The cache key is injective *)

Lemma pretty_N_char_colon x : Ascii.eqb (pretty_N_char x) ":"%char = false.
Proof. unfold pretty_N_char. by repeat case_match. Qed.

Lemma pretty_N_go_colon_free x s :
  colon_free s = true → colon_free (pretty_N_go x s) = true.
Proof.
  revert s. induction (N.lt_wf_0 x) as [x _ IH]. intros s Hs.
  destruct (decide (x = 0%N)) as [->|Hx].
  - by rewrite pretty_N_go_0.
  - rewrite pretty_N_go_step by lia. apply IH.
    + apply N.div_lt; lia.
    + simpl. by rewrite pretty_N_char_colon.
Qed.

Lemma pretty_Z_colon_free (z : Z) : colon_free (pretty z) = true.
Proof.
  destruct z as [|p|p]; [done | |].
  - unfold pretty, pretty_Z, pretty, pretty_positive, pretty, pretty_N.
    case_decide; [done|]. by apply pretty_N_go_colon_free.
  - unfold pretty, pretty_Z. simpl.
    unfold pretty, pretty_positive, pretty, pretty_N.
    case_decide; [done|]. by apply pretty_N_go_colon_free.
Qed.

Lemma append_nil s : "" +:+ s = s.
Proof. reflexivity. Qed.

Lemma append_cons a r s : String a r +:+ s = String a (r +:+ s).
Proof. reflexivity. Qed.

Lemma colon_free_app_colon d p :
  colon_free (d +:+ String ":"%char p) = false.
Proof.
  induction d as [|a d IH].
  - reflexivity.
  - rewrite append_cons. simpl. by destruct (Ascii.eqb a ":"%char).
Qed.

Lemma key_split_cons d1 d2 p1 p2 :
  colon_free p1 = true → colon_free p2 = true →
  d1 +:+ String ":"%char p1 = d2 +:+ String ":"%char p2 → d1 = d2 ∧ p1 = p2.
Proof.
  revert d2. induction d1 as [|a d1 IH]; intros [|b d2] H1 H2 E;
    rewrite ?append_nil, ?append_cons in E.
  - by injection E.
  - injection E as _ E. subst p1.
    pose proof (colon_free_app_colon d2 p2) as Hc. congruence.
  - injection E as _ E. subst p2.
    pose proof (colon_free_app_colon d1 p1) as Hc. congruence.
  - injection E as -> E. destruct (IH d2 H1 H2 E) as [-> ->]. done.
Qed.

Lemma key_split d1 d2 p1 p2 :
  colon_free p1 = true → colon_free p2 = true →
  d1 +:+ ":" +:+ p1 = d2 +:+ ":" +:+ p2 → d1 = d2 ∧ p1 = p2.
Proof. apply key_split_cons. Qed.

Lemma cache_key_inj d1 s1 d2 s2 :
  cache_key d1 s1 = cache_key d2 s2 → d1 = d2 ∧ s1 = s2.
Proof.
  intros E. apply key_split in E as [-> E]; try apply pretty_Z_colon_free.
  split; [done|]. by apply (inj pretty).
Qed.

Lemma cache_key_ne d1 s1 d2 s2 :
  (d1, s1) ≠ (d2, s2) → cache_key d1 s1 ≠ cache_key d2 s2.
Proof. intros Hne E. apply cache_key_inj in E as [-> ->]. done. Qed.

(** *** The three cache operations *)

Lemma cleanup_lookup now c k :
  cache (_cleanup now c) !! k =
  match cache c !! k with
  | Some e => if expired now e then None else Some e
  | None => None
  end.
Proof.
  unfold _cleanup; simpl. destruct (cache c !! k) as [e|] eqn:Hk.
  - destruct (expired now e) eqn:He.
    + apply map_lookup_filter_None. right. intros e' He'. simpl.
      rewrite Hk in He'. injection He' as <-. by rewrite He.
    + apply map_lookup_filter_Some. done.
  - apply map_lookup_filter_None. by left.
Qed.

Lemma cleanup_ttl now c : ttl_seconds (_cleanup now c) = ttl_seconds c.
Proof. done. Qed.

Lemma cleanup_subseteq now c : cache (_cleanup now c) ⊆ cache c.
Proof. apply map_filter_subseteq. Qed.

Lemma has_seen_cache now d s c : (has_seen now d s c).2 = _cleanup now c.
Proof. done. Qed.

Lemma has_seen_true now d s c :
  (has_seen now d s c).1 = true ↔
  ∃ e, cache c !! cache_key d s = Some e ∧ (now <= e)%Q.
Proof.
  unfold has_seen. cbn [fst]. rewrite bool_decide_eq_true, cleanup_lookup.
  unfold expired. split.
  - intros [e' He']. destruct (cache c !! cache_key d s) as [e|]; [|done].
    exists e. split; [done|]. apply Qltb_false.
    by destruct (Qltb e now).
  - intros (e & -> & Hle). apply Qltb_false in Hle. rewrite Hle. by eexists.
Qed.

Lemma has_seen_false now d s c :
  (has_seen now d s c).1 = false ↔
  ∀ e, cache c !! cache_key d s = Some e → (e < now)%Q.
Proof.
  rewrite <- not_true_iff_false, has_seen_true. split.
  - intros Hn e He. apply Qnot_le_lt. intros Hle. apply Hn. eauto.
  - intros Hall (e & He & Hle). apply Hall in He.
    by apply Qlt_not_le in He.
Qed.

Lemma mark_seen_lookup now d s c :
  cache (mark_seen now d s c) !! cache_key d s
  = Some (float_add_int now (ttl_seconds c)).
Proof. unfold mark_seen; simpl. apply lookup_insert_eq. Qed.

Lemma mark_seen_lookup_ne now d s c k :
  k ≠ cache_key d s → cache (mark_seen now d s c) !! k = cache c !! k.
Proof. intros Hne. unfold mark_seen; simpl. by apply lookup_insert_ne. Qed.

Lemma mark_seen_ttl now d s c : ttl_seconds (mark_seen now d s c) = ttl_seconds c.
Proof. done. Qed.

(** *** The endpoint, gate by gate *)

Lemma ingest_overloaded m w st :
  Qltb (random w) OVERLOAD_PROBABILITY = true →
  response (ingest_telemetry m w st)
    = HTTPException 503 "Service temporarily overloaded" ∧
  message_cache (after (ingest_telemetry m w st)) = message_cache st.
Proof. intros H. unfold ingest_telemetry. by rewrite H. Qed.

Lemma ingest_invalid m w st :
  Qltb (random w) OVERLOAD_PROBABILITY = false →
  sequence_id m < 0 →
  response (ingest_telemetry m w st)
    = HTTPException 400 "sequence_id must be >= 0" ∧
  message_cache (after (ingest_telemetry m w st)) = message_cache st.
Proof.
  intros H Hneg. unfold ingest_telemetry. rewrite H.
  by rewrite (proj2 (Z.ltb_lt _ _) Hneg).
Qed.

Lemma ingest_checked m w st :
  Qltb (random w) OVERLOAD_PROBABILITY = false →
  0 ≤ sequence_id m →
  let hs := has_seen (time_check w) (device_id m) (sequence_id m)
              (message_cache st) in
  if hs.1 then
    response (ingest_telemetry m w st) = HTTPException 409 "Duplicate message" ∧
    message_cache (after (ingest_telemetry m w st)) = hs.2
  else
    response (ingest_telemetry m w st) = Return (accepted_body (uuid4 w)) ∧
    message_cache (after (ingest_telemetry m w st))
      = mark_seen (time_mark w) (device_id m) (sequence_id m) hs.2.
Proof.
  intros H Hpos hs. unfold ingest_telemetry. rewrite H.
  rewrite (proj2 (Z.ltb_ge _ _) Hpos).
  fold hs. destruct hs as [[] c1]; done.
Qed.

Lemma ingest_ttl m w st :
  ttl_seconds (message_cache (after (ingest_telemetry m w st)))
  = ttl_seconds (message_cache st).
Proof.
  unfold ingest_telemetry.
  destruct (Qltb _ _); [done|]. destruct (_ <? _); [done|].
  destruct (has_seen _ _ _ _) as [[] c1] eqn:E; simpl;
    apply (f_equal snd) in E; simpl in E; by subst c1.
Qed.

(** Accepting is the only way into the cache, and only for the key of the
    message accepted. *)
Lemma ingest_other_key m w st k :
  k ≠ cache_key (device_id m) (sequence_id m) →
  cache (message_cache st) !! k = None →
  cache (message_cache (after (ingest_telemetry m w st))) !! k = None.
Proof.
  intros Hk Hnone. unfold ingest_telemetry.
  destruct (Qltb _ _); [done|]. destruct (_ <? _); [done|].
  destruct (has_seen _ _ _ _) as [[] c1] eqn:E;
    apply (f_equal snd) in E; simpl in E; subst c1; simpl.
  - change (cache (_cleanup (time_check w) (message_cache st)) !! k = None).
    by rewrite cleanup_lookup, Hnone.
  - rewrite lookup_insert_ne by done.
    change (cache (_cleanup (time_check w) (message_cache st)) !! k = None).
    by rewrite cleanup_lookup, Hnone.
Qed.

Lemma run_app l1 l2 st :
  run (l1 ++ l2) st =
  let '(r1, st1) := run l1 st in
  let '(r2, st2) := run l2 st1 in
  (r1 ++ r2, st2).
Proof.
  revert st. induction l1 as [|r l1 IH]; intros st; simpl.
  - by destruct (run l2 st).
  - rewrite IH. destruct (run l1 _) as [r1 st1].
    by destruct (run l2 st1).
Qed.

Lemma run_length reqs st : length (run reqs st).1 = length reqs.
Proof.
  revert st. induction reqs as [|r reqs IH]; intros st; simpl; [done|].
  specialize (IH (after (ingest_telemetry (msg r) (world r) st))).
  destruct (run reqs _); simpl in *. by rewrite IH.
Qed.

Lemma run_ttl reqs st :
  ttl_seconds (message_cache (run reqs st).2) = ttl_seconds (message_cache st).
Proof.
  revert st. induction reqs as [|r reqs IH]; intros st; simpl; [done|].
  specialize (IH (after (ingest_telemetry (msg r) (world r) st))).
  destruct (run reqs _); simpl in *. by rewrite IH, ingest_ttl.
Qed.

(** A key no request of the run carries stays out of the cache. *)
Lemma run_other_key reqs st d s :
  Forall (λ r, (device_id (msg r), sequence_id (msg r)) ≠ (d, s)) reqs →
  cache (message_cache st) !! cache_key d s = None →
  cache (message_cache (run reqs st).2) !! cache_key d s = None.
Proof.
  revert st. induction reqs as [|r reqs IH]; intros st Hall Hnone; simpl; [done|].
  inversion Hall as [|? ? Hr Hrest]; subst.
  specialize (IH (after (ingest_telemetry (msg r) (world r) st)) Hrest).
  destruct (run reqs _); simpl in *. apply IH.
  apply ingest_other_key; [|done].
  apply not_eq_sym, cache_key_ne. done.
Qed.

(** *** Sequences of cache operations *)




Section MarkThenOps.
Variables (d : string) (s : Z) (t0 : Q) (ttl : Z).

Local Abbreviation fresh := (entry_live d s t0 ttl).
Local Abbreviation stale_after := (entry_stale d s t0 ttl).
Local Abbreviation in_window := (within_ttl t0 ttl).








End MarkThenOps.


(** C10. Expiry is strict: the cleanup pass deletes exactly the entries
    whose expiry is strictly less than the current time, so a key is still
    seen at the very instant of its expiry and stops being seen only
    strictly after it. *)
Theorem cache_expiry_is_strict
    (c : MessageCache) (d : string) (s : Z) (e now : Q) :
  cache c !! cache_key d s = Some e →
  (∀ k v, cache c !! k = Some v →
     (cache (_cleanup now c) !! k = None ↔ (v < now)%Q) ∧
     (cache (_cleanup now c) !! k = Some v ↔ (now <= v)%Q)) ∧
  ((now == e)%Q → (has_seen now d s c).1 = true) ∧
  ((has_seen now d s c).1 = true ↔ (now <= e)%Q) ∧
  ((has_seen now d s c).1 = false ↔ (e < now)%Q).
Proof.
  intros He. split; [|split; [|split]].
  - intros k v Hk. rewrite cleanup_lookup, Hk. unfold expired.
    destruct (Qltb v now) eqn:E.
    + apply Qltb_true in E. split; split; try done.
      intros Hle. lra.
    + apply Qltb_false in E. split; split; try done.
      intros Hlt. lra.
  - intros Heq. apply has_seen_true. exists e. split; [done|]. lra.
  - rewrite has_seen_true. split.
    + intros (e' & He' & Hle). rewrite He in He'. by injection He' as <-.
    + intros Hle. eauto.
  - rewrite has_seen_false. split.
    + intros H. by apply H.
    + intros Hlt e' He'. rewrite He in He'. by injection He' as <-.
Qed.

(** C5. A message with a negative [sequence_id] that passes the overload
    gate is answered 400 whatever the cache holds; the cache is neither
    read (no clock reading and no cache content changes the reply) nor
    changed, so the message is not remembered: sent again, it is rejected
    again. *)
Theorem negative_sequence_rejected
    (m : TelemetryMessage) (w : World) (st : State) :
  sequence_id m < 0 →
  Qltb (random w) OVERLOAD_PROBABILITY = false →
  let r := ingest_telemetry m w st in
  response r = HTTPException 400 "sequence_id must be >= 0" ∧
  http_status (response r) = 400 ∧
  outcome r = Rejected ∧
  message_cache (after r) = message_cache st ∧
  (∀ st' t1 t2,
     response (ingest_telemetry m (with_clock w t1 t2) st') = response r) ∧
  (∀ t1 t2, ingest_telemetry m (with_clock w t1 t2) st = r) ∧
  (∀ w', Qltb (random w') OVERLOAD_PROBABILITY = false →
     outcome (ingest_telemetry m w' (after r)) = Rejected ∧
     message_cache (after (ingest_telemetry m w' (after r))) = message_cache st).
Proof.
  intros Hneg Hno r.
  assert (∀ w0 st0, Qltb (random w0) OVERLOAD_PROBABILITY = false →
            ingest_telemetry m w0 st0 =
            {| response := HTTPException 400 "sequence_id must be >= 0";
               log := [log_event "INFO" "telemetry_received" (uuid4 w0) m None None;
                       log_event "ERROR" "validation_failed" (uuid4 w0) m
                         (Some "rejected") (Some "invalid_sequence_id")];
               after := {| message_cache := message_cache st0;
                           metrics := incr_rejected (incr_received (metrics st0)) |} |})
    as Heval.
  { intros w0 st0 H0. unfold ingest_telemetry. rewrite H0.
    by rewrite (proj2 (Z.ltb_lt _ _) Hneg). }
  subst r. rewrite (Heval w st Hno).
  repeat split; try done.
  - intros st' t1 t2. by rewrite (Heval (with_clock w t1 t2) st' Hno).
  - intros t1 t2. by rewrite (Heval (with_clock w t1 t2) st Hno).
  - unfold outcome. by rewrite (Heval w' _ H).
  - by rewrite (Heval w' _ H).
Qed.

(** *** Runs of the endpoint *)

Lemma run_cons r reqs st :
  run (r :: reqs) st =
  let rp := ingest_telemetry (msg r) (world r) st in
  (rp :: (run reqs (after rp)).1, (run reqs (after rp)).2).
Proof. cbn [run]. by destruct (run reqs _). Qed.

(** The four ways through the endpoint. *)
Lemma ingest_cases m w st :
  let rp := ingest_telemetry m w st in
  let c1 := _cleanup (time_check w) (message_cache st) in
  (outcome rp = Overloaded ∧ message_cache (after rp) = message_cache st) ∨
  (outcome rp = Rejected ∧ message_cache (after rp) = message_cache st) ∨
  (outcome rp = DuplicateAcknowledged ∧ message_cache (after rp) = c1 ∧
   (has_seen (time_check w) (device_id m) (sequence_id m) (message_cache st)).1 = true) ∨
  (outcome rp = Accepted ∧
   message_cache (after rp) = mark_seen (time_mark w) (device_id m) (sequence_id m) c1 ∧
   (has_seen (time_check w) (device_id m) (sequence_id m) (message_cache st)).1 = false).
Proof.
  intros rp c1. subst rp. unfold ingest_telemetry.
  destruct (Qltb _ _); [by left|].
  destruct (_ <? _); [by right; left|].
  destruct (has_seen _ _ _ _) as [[] c1'] eqn:E;
    pose proof (f_equal snd E) as E2; cbn [snd] in E2;
    rewrite has_seen_cache in E2; subst c1'.
  - right; right; left. done.
  - right; right; right. done.
Qed.

Section AfterAccept.
Variables (d : string) (s : Z) (t_acc : Q) (ttl : Z).

Local Abbreviation guarded := (accept_guard d s t_acc ttl).

Lemma guarded_cleanup lo now st :
  (lo <= now)%Q → guarded lo st →
  match cache (_cleanup now (message_cache st)) !! cache_key d s with
  | Some e => (float_add_int t_acc ttl <= e)%Q
  | None => (float_add_int t_acc ttl < now)%Q
  end.
Proof.
  intros Hlo (_ & _ & Hg). rewrite cleanup_lookup.
  destruct (cache (message_cache st) !! cache_key d s) as [e|]; [|lra].
  unfold expired. destruct (Qltb e now) eqn:E; [|done].
  apply Qltb_true in E. lra.
Qed.

Lemma guarded_step lo r st :
  (lo <= time_check (world r))%Q →
  (time_check (world r) <= time_mark (world r))%Q →
  guarded lo st →
  let rp := ingest_telemetry (msg r) (world r) st in
  guarded (time_mark (world r)) (after rp) ∧
  ((device_id (msg r), sequence_id (msg r)) = (d, s) →
   outcome rp = Accepted →
   (float_add_int t_acc ttl < time_check (world r))%Q).
Proof.
  intros Hlo Hcm Hg rp.
  pose proof (guarded_cleanup lo (time_check (world r)) st Hlo Hg) as Hc1.
  destruct Hg as (Httl & Hacc & Hg).
  destruct (ingest_cases (msg r) (world r) st)
    as [[Ho Hst]|[[Ho Hst]|[(Ho & Hst & Hs)|(Ho & Hst & Hs)]]];
    fold rp in Ho, Hst.
  - split; [|intros _; congruence].
    split; [by rewrite Hst|]. split; [lra|]. rewrite Hst.
    destruct (cache (message_cache st) !! cache_key d s); [done|lra].
  - split; [|intros _; congruence].
    split; [by rewrite Hst|]. split; [lra|]. rewrite Hst.
    destruct (cache (message_cache st) !! cache_key d s); [done|lra].
  - split; [|intros _; congruence].
    split; [by rewrite Hst|]. split; [lra|]. rewrite Hst.
    destruct (cache (_cleanup _ _) !! cache_key d s); [done|lra].
  - split.
    + split; [by rewrite Hst|]. split; [lra|]. rewrite Hst.
      destruct (decide (cache_key d s
                        = cache_key (device_id (msg r)) (sequence_id (msg r))))
        as [E|E].
      * rewrite E, mark_seen_lookup, cleanup_ttl, Httl.
        apply float_add_int_mono. lra.
      * rewrite mark_seen_lookup_ne by done.
        destruct (cache (_cleanup _ _) !! cache_key d s); [done|lra].
    + intros [= Hd Hsq] _. rewrite Hd, Hsq in Hs.
      rewrite has_seen_false in Hs.
      destruct (cache (message_cache st) !! cache_key d s) as [e|] eqn:He.
      * specialize (Hs e eq_refl). lra.
      * lra.
Qed.

Lemma guarded_run reqs lo st :
  clock_from lo reqs → guarded lo st →
  ∀ j rj rp, reqs !! j = Some rj → (run reqs st).1 !! j = Some rp →
    (device_id (msg rj), sequence_id (msg rj)) = (d, s) →
    outcome rp = Accepted →
    (float_add_int t_acc ttl < time_check (world rj))%Q.
Proof.
  revert lo st. induction reqs as [|r reqs IH]; intros lo st Hclk Hg j rj rp Hj Hrp Hk Ho;
    [done|].
  destruct Hclk as (Hlo & Hcm & Hclk).
  destruct (guarded_step lo r st Hlo Hcm Hg) as [Hg' Hacc].
  rewrite run_cons in Hrp. cbn [fst] in Hrp.
  destruct j as [|j]; cbn [lookup list_lookup] in *.
  - injection Hj as ->. injection Hrp as <-. by apply Hacc.
  - by eapply (IH _ _ Hclk Hg' j rj rp).
Qed.
End AfterAccept.

(** No run in which the clock moves forward accepts the same key twice
    within a TTL: the later acceptance reads a clock beyond the expiry the
    earlier one stored. *)
Lemma no_double_accept reqs lo st i j ri rj rpi rpj :
  clock_from lo reqs →
  (i < j)%nat →
  reqs !! i = Some ri → reqs !! j = Some rj →
  (run reqs st).1 !! i = Some rpi → (run reqs st).1 !! j = Some rpj →
  (device_id (msg ri), sequence_id (msg ri))
    = (device_id (msg rj), sequence_id (msg rj)) →
  outcome rpi = Accepted → outcome rpj = Accepted →
  (float_add_int (time_mark (world ri)) (ttl_seconds (message_cache st))
     < time_check (world rj))%Q.
Proof.
  revert lo st i j. induction reqs as [|r reqs IH];
    intros lo st i j Hclk Hij Hi Hj Hrpi Hrpj Hk Hoi Hoj; [done|].
  destruct Hclk as (Hlo & Hcm & Hclk).
  rewrite run_cons in Hrpi, Hrpj. cbn [fst] in Hrpi, Hrpj.
  destruct j as [|j]; [lia|]. cbn [lookup list_lookup] in Hj, Hrpj.
  destruct i as [|i]; cbn [lookup list_lookup] in Hi, Hrpi.
  - injection Hi as ->. injection Hrpi as <-.
    eapply (guarded_run (device_id (msg ri)) (sequence_id (msg ri))
              (time_mark (world ri)) (ttl_seconds (message_cache st))
              reqs _ _ Hclk); [|done..].
    destruct (ingest_cases (msg ri) (world ri) st)
      as [[Ho _]|[[Ho _]|[(Ho & _)|(_ & Hst & _)]]]; try congruence.
    split; [by rewrite Hst|]. split; [lra|].
    rewrite Hst, mark_seen_lookup, cleanup_ttl. apply Qle_refl.
  - rewrite <- (ingest_ttl (msg r) (world r) st).
    eapply (IH _ _ i j Hclk); [lia|done..].
Qed.

(** C1, as the code has it.  In any state of the service in which the key
    of a message with a non-negative sequence number has no entry that is
    still unexpired when the first submission checks the cache (the key
    never accepted, only answered 503 or 400 so far, or expired since), the
    message submitted twice in sequence (no overload on either request,
    the second checked no later than the expiry the first stored) is
    Accepted and then DuplicateAcknowledged; the duplicate leaves the cache
    a subset of what it was, with the entry of the key unchanged; and in a
    run that handles its requests one after the other and in which the
    clock never runs backwards, a key accepted twice is accepted the
    second time strictly after the expiry the first acceptance stored. *)
Theorem accepted_then_duplicate
    (st0 : State) (m : TelemetryMessage) (w1 w2 : World) :
  let key := cache_key (device_id m) (sequence_id m) in
  let expiry := float_add_int (time_mark w1) (ttl_seconds (message_cache st0)) in
  0 ≤ sequence_id m →
  (∀ e, cache (message_cache st0) !! key = Some e → (e < time_check w1)%Q) →
  Qltb (random w1) OVERLOAD_PROBABILITY = false →
  Qltb (random w2) OVERLOAD_PROBABILITY = false →
  (time_check w2 <= expiry)%Q →
  let r1 := ingest_telemetry m w1 st0 in
  let r2 := ingest_telemetry m w2 (after r1) in
  (outcome r1 = Accepted ∧ http_status (response r1) = 200) ∧
  (outcome r2 = DuplicateAcknowledged ∧ http_status (response r2) = 409) ∧
  cache (message_cache (after r2)) ⊆ cache (message_cache (after r1)) ∧
  cache (message_cache (after r2)) !! key
    = cache (message_cache (after r1)) !! key ∧
  cache (message_cache (after r1)) !! key = Some expiry ∧
  (∀ reqs lo st i j ri rj rpi rpj,
     clock_from lo reqs → (i < j)%nat →
     reqs !! i = Some ri → reqs !! j = Some rj →
     (run reqs st).1 !! i = Some rpi → (run reqs st).1 !! j = Some rpj →
     (device_id (msg ri), sequence_id (msg ri)) = (device_id m, sequence_id m) →
     (device_id (msg rj), sequence_id (msg rj)) = (device_id m, sequence_id m) →
     outcome rpi = Accepted → outcome rpj = Accepted →
     (float_add_int (time_mark (world ri)) (ttl_seconds (message_cache st))
        < time_check (world rj))%Q).
Proof.
  intros key expiry Hpos Hfresh Hno1 Hno2 Hwin r1 r2.
  pose proof (ingest_checked m w1 st0 Hno1 Hpos) as H1. cbn zeta in H1.
  assert ((has_seen (time_check w1) (device_id m) (sequence_id m)
             (message_cache st0)).1 = false) as Hs1.
  { by apply has_seen_false. }
  rewrite Hs1 in H1. destruct H1 as [Hr1 Hc1]. fold r1 in Hr1, Hc1.
  rewrite has_seen_cache in Hc1.
  assert (cache (message_cache (after r1)) !! key = Some expiry) as Hentry.
  { rewrite Hc1. unfold key. by rewrite mark_seen_lookup, cleanup_ttl. }
  pose proof (ingest_checked m w2 (after r1) Hno2 Hpos) as H2. cbn zeta in H2.
  assert ((has_seen (time_check w2) (device_id m) (sequence_id m)
             (message_cache (after r1))).1 = true) as Hs2.
  { apply has_seen_true. eexists. split; [exact Hentry|done]. }
  rewrite Hs2 in H2. destruct H2 as [Hr2 Hc2]. fold r2 in Hr2, Hc2.
  rewrite has_seen_cache in Hc2.
  split; [|split; [|split; [|split; [|split]]]].
  - unfold outcome. by rewrite Hr1.
  - unfold outcome. by rewrite Hr2.
  - rewrite Hc2. apply cleanup_subseteq.
  - rewrite Hc2, cleanup_lookup, Hentry. unfold expired.
    assert (Qltb expiry (time_check w2) = false) as ->; [|done].
    by apply Qltb_false.
  - done.
  - intros reqs lo st i j ri rj rpi rpj Hclk Hij Hi Hj Hrpi Hrpj Hki Hkj Hoi Hoj.
    eapply no_double_accept; try done. congruence.
Qed.

(** *** Threads *)

(** A thread that is given two steps in a row does what the endpoint does
    when called alone. *)
Lemma thread_step_twice r st :
  let rp := ingest_telemetry (msg r) (world r) st in
  let s1 := thread_step (Start r) st in
  thread_step s1.1 s1.2 = (Finished (response rp), after rp).
Proof.
  cbv zeta. unfold ingest_telemetry. cbn [thread_step].
  destruct (Qltb _ _); [reflexivity|]. destruct (_ <? _); [reflexivity|].
  destruct (has_seen _ _ _ _) as [[] c1]; reflexivity.
Qed.

Lemma exec_cons i rest ts st t :
  ts !! i = Some t →
  exec (i :: rest) ts st
  = exec rest (<[i := (thread_step t st).1]> ts) (thread_step t st).2.
Proof. intros Hi. cbn [exec]. rewrite Hi. by destruct (thread_step t st). Qed.

Lemma exec_serial_from (fin : list Thread) reqs st :
  exec (flat_map (λ i, [i; i]) (seq (length fin) (length reqs)))
       (fin ++ (Start <$> reqs)) st
  = (fin ++ ((λ rp, Finished (response rp)) <$> (run reqs st).1),
     (run reqs st).2).
Proof.
  revert fin st. induction reqs as [|r reqs IH]; intros fin st; [done|].
  cbn [length seq flat_map app fmap list_fmap].
  rewrite (exec_cons _ _ _ _ (Start r)) by (by apply list_lookup_middle).
  rewrite (insert_app_r_alt _ _ (length fin)) by lia.
  rewrite Nat.sub_diag. cbn [insert list_insert].
  rewrite (exec_cons _ _ _ _ (thread_step (Start r) st).1)
    by (by apply list_lookup_middle).
  rewrite (insert_app_r_alt _ _ (length fin)) by lia.
  rewrite Nat.sub_diag. cbn [insert list_insert].
  rewrite thread_step_twice. cbn [fst snd].
  rewrite run_cons. cbv zeta. cbn [fst snd fmap list_fmap].
  rewrite (cons_middle _ fin), app_assoc.
  specialize (IH (fin ++ [Finished (response (ingest_telemetry (msg r) (world r) st))])
                 (after (ingest_telemetry (msg r) (world r) st))).
  rewrite length_app, Nat.add_1_r in IH. cbn [length] in IH.
  rewrite IH. by rewrite <- !app_assoc.
Qed.

(** On the serial schedule the threads do what [run] does. *)
Lemma exec_serial reqs st :
  exec (serial (length reqs)) (Start <$> reqs) st
  = ((λ rp, Finished (response rp)) <$> (run reqs st).1, (run reqs st).2).
Proof. apply (exec_serial_from [] reqs st). Qed.

Lemma thread_outcome_finished rp :
  thread_outcome (Finished (response rp)) = Some (outcome rp).
Proof. unfold outcome. by destruct (response rp). Qed.

Lemma thread_outcomes_finished (rps : list Reply) :
  thread_outcome <$> ((λ rp, Finished (response rp)) <$> rps)
  = Some <$> (outcome <$> rps).
Proof.
  induction rps as [|rp rps IH]; [done|].
  cbn [fmap list_fmap] in *. by rewrite thread_outcome_finished, IH.
Qed.

(** Once the key is in the cache with expiry [e], requests for it that
    are checked no later than [e] are all duplicates. *)
Lemma run_duplicates m ws st e :
  0 ≤ sequence_id m →
  cache (message_cache st) !! cache_key (device_id m) (sequence_id m) = Some e →
  Forall (λ w, Qltb (random w) OVERLOAD_PROBABILITY = false ∧
               (time_check w <= e)%Q) ws →
  outcome <$> (run ((λ w, {| msg := m; world := w |}) <$> ws) st).1
  = replicate (length ws) DuplicateAcknowledged.
Proof.
  intros Hpos. revert st. induction ws as [|w ws IH]; intros st He Hall; [done|].
  inversion Hall as [|? ? [Hno Hle] Hrest]; subst.
  cbn [fmap list_fmap]. rewrite run_cons. cbv zeta.
  cbn [fst fmap list_fmap length replicate msg world].
  pose proof (ingest_checked m w st Hno Hpos) as Hc. cbv zeta in Hc.
  assert ((has_seen (time_check w) (device_id m) (sequence_id m)
             (message_cache st)).1 = true) as Hs.
  { apply has_seen_true. eauto. }
  rewrite Hs in Hc. destruct Hc as [Hr Hst]. rewrite has_seen_cache in Hst.
  f_equal.
  - unfold outcome. by rewrite Hr.
  - apply IH; [|done]. rewrite Hst, cleanup_lookup, He. unfold expired.
    assert (Qltb e (time_check w) = false) as ->; [|done].
    by apply Qltb_false.
Qed.

(** C9, as the code has it.  N deliveries of one message with a
    non-negative sequence number (no overload, key not cached, every check
    no later than the expiry stored by the first acceptance) that are
    served one at a time, each running [has_seen] and
    [mark_seen] with no other request in between, yield one Accepted and
    N-1 DuplicateAcknowledged.  The code has no lock that would enforce
    this for requests served by concurrent threads. *)
Theorem serial_deliveries_accept_once
    (m : TelemetryMessage) (w0 : World) (ws : list World) (st : State) :
  0 ≤ sequence_id m →
  cache (message_cache st) !! cache_key (device_id m) (sequence_id m) = None →
  Forall (λ w, Qltb (random w) OVERLOAD_PROBABILITY = false) (w0 :: ws) →
  Forall (λ w, (time_check w
                <= float_add_int (time_mark w0)
                     (ttl_seconds (message_cache st)))%Q) ws →
  let reqs := (λ w, {| msg := m; world := w |}) <$> (w0 :: ws) in
  thread_outcome <$> (exec (serial (length reqs)) (Start <$> reqs) st).1
  = Some Accepted :: replicate (length ws) (Some DuplicateAcknowledged).
Proof.
  intros Hpos Hfresh Hno Hwin reqs. subst reqs.
  rewrite exec_serial. cbn [fst].
  rewrite thread_outcomes_finished.
  rewrite fmap_cons, run_cons. cbv zeta.
  cbn [fst msg world]. rewrite !fmap_cons.
  inversion Hno as [|? ? Hno0 Hnos]; subst.
  pose proof (ingest_checked m w0 st Hno0 Hpos) as Hc. cbv zeta in Hc.
  assert ((has_seen (time_check w0) (device_id m) (sequence_id m)
             (message_cache st)).1 = false) as Hs.
  { apply has_seen_false. intros e He. congruence. }
  rewrite Hs in Hc. destruct Hc as [Hr Hst]. rewrite has_seen_cache in Hst.
  f_equal.
  - unfold outcome. by rewrite Hr.
  - rewrite (run_duplicates m ws _
               (float_add_int (time_mark w0) (ttl_seconds (message_cache st)))
               Hpos).
    + by rewrite fmap_replicate.
    + by rewrite Hst, mark_seen_lookup, cleanup_ttl.
    + apply Forall_forall. intros w Hw. split.
      * by apply (proj1 (Forall_forall _ _) Hnos).
      * by apply (proj1 (Forall_forall _ _) Hwin).
Qed.

(** *** The theorems at concrete inputs *)

Import Examples.

Ltac qcmp := unfold Qle, Qlt; cbn; lia.

Lemma accepted_then_duplicate_witness :
  let st0 := (run [overloaded_request 7 "y" (40 # 1); request 3 "z" (50 # 1)]
                initial_state).2 in
  let r1 := ingest_telemetry (message 7) (world_at "a" (100 # 1)) st0 in
  let r2 := ingest_telemetry (message 7) (world_at "b" (150 # 1)) (after r1) in
  0 ≤ sequence_id (message 7) ∧
  cache (message_cache st0) !! cache_key "device-001" 7 = None ∧
  outcome r1 = Accepted ∧ outcome r2 = DuplicateAcknowledged.
Proof.
  intros st0 r1 r2. split; [done|]. split; [by vm_compute|].
  destruct (accepted_then_duplicate st0 (message 7)
              (world_at "a" (100 # 1)) (world_at "b" (150 # 1)))
    as ([H1 _] & [H2 _] & _).
  - done.
  - intros e He. vm_compute in He. discriminate.
  - reflexivity.
  - reflexivity.
  - by vm_compute.
  - split; [exact H1 | exact H2].
Defined.

(** C1, as stated, fails on the code: the service reads the wall clock,
    and where it is set back a key is accepted twice within one TTL.
    Message 7 is accepted at 100 s, swept at 500 s, and accepted once more
    at 200 s, within 300 s of its first acceptance. *)
Lemma clock_set_back_accepts_twice :
  outcome <$> (run clock_set_back initial_state).1
    = [Accepted; Accepted; Accepted] ∧
  ((100 # 1) <= 200 # 1)%Q ∧ (200 # 1 <= (100 # 1) + 300)%Q ∧
  (200 # 1 <= float_add_int (100 # 1) 300)%Q.
Proof. repeat split; by vm_compute. Qed.



Lemma cache_expiry_is_strict_witness :
  let c := mark_seen (100 # 1) "device-001" 7 (MessageCache_init 300) in
  cache c !! cache_key "device-001" 7 = Some (400 # 1) ∧
  (has_seen (400 # 1) "device-001" 7 c).1 = true.
Proof.
  intros c. split; [by vm_compute|].
  destruct (cache_expiry_is_strict c "device-001" 7 (400 # 1) (400 # 1))
    as (_ & H & _).
  - by vm_compute.
  - apply H. reflexivity.
Defined.

Lemma negative_sequence_rejected_witness :
  sequence_id (message (-1)) < 0 ∧
  outcome (ingest_telemetry (message (-1)) (world_at "a" (100 # 1)) initial_state)
    = Rejected.
Proof.
  split; [done|].
  destruct (negative_sequence_rejected (message (-1)) (world_at "a" (100 # 1))
              initial_state) as (_ & _ & H & _).
  - done.
  - reflexivity.
  - exact H.
Defined.

Lemma serial_deliveries_accept_once_witness :
  let reqs := [request 7 "a" (100 # 1); request 7 "b" (101 # 1);
               request 7 "c" (102 # 1)] in
  cache (message_cache initial_state) !! cache_key "device-001" 7 = None ∧
  thread_outcome <$> (exec (serial 3) (Start <$> reqs) initial_state).1
  = [Some Accepted; Some DuplicateAcknowledged; Some DuplicateAcknowledged].
Proof.
  intros reqs. split; [done|].
  apply (serial_deliveries_accept_once (message 7) (world_at "a" (100 # 1))
           [world_at "b" (101 # 1); world_at "c" (102 # 1)] initial_state).
  - done.
  - done.
  - by repeat constructor.
  - repeat constructor; by vm_compute.
Defined.

(** C9, as stated, fails on the code: two deliveries of one message whose
    [has_seen] calls both come before either [mark_seen] are both
    Accepted. *)
Lemma concurrent_deliveries_both_accepted :
  cache (message_cache initial_state) !! cache_key "device-001" 7 = None ∧
  thread_outcome <$> (exec interleaved racing initial_state).1
  = [Some Accepted; Some Accepted].
Proof. split; by vm_compute. Qed.

End EdgeFacts.

(** ** Properties of the sending device *)

Module DeviceFacts.
Import Device.

(** *** Backoff *)

Lemma py_min_spec a b : (py_min a b == Qmin a b)%Q.
Proof.
  unfold py_min. destruct (Qltb b a) eqn:E.
  - apply Qltb_true in E. symmetry. apply Q.min_r. lra.
  - apply Qltb_false in E. symmetry. by apply Q.min_l.
Qed.

Lemma py_max_spec a b : (py_max a b == Qmax a b)%Q.
Proof.
  unfold py_max. destruct (Qltb a b) eqn:E.
  - apply Qltb_true in E. symmetry. apply Q.max_r. lra.
  - apply Qltb_false in E. symmetry. by apply Q.max_l.
Qed.

Lemma float_of_pow2 attempt :
  0 ≤ attempt ≤ 1023 → float_of_int (2 ^ attempt) = Some (inject_Z (2 ^ attempt)).
Proof.
  intros [Hlo Hhi]. unfold float_of_int.
  assert (0 < 2 ^ attempt) by (apply Z.pow_pos_nonneg; lia).
  assert (2 ^ attempt ≤ 2 ^ 1023) by (apply Z.pow_le_mono_r; lia).
  assert (2 ^ 1023 < 2 ^ 1024 - 2 ^ 970) by (by vm_compute).
  rewrite Z.abs_eq by lia.
  by rewrite (proj2 (Z.ltb_lt _ _)) by lia.
Qed.

Lemma float_of_pow2_overflow attempt :
  1024 ≤ attempt → float_of_int (2 ^ attempt) = None.
Proof.
  intros Hlo. unfold float_of_int.
  assert (2 ^ 1024 ≤ 2 ^ attempt) by (apply Z.pow_le_mono_r; lia).
  assert (0 < 2 ^ 970) by (by vm_compute).
  rewrite Z.abs_eq by lia.
  by rewrite (proj2 (Z.ltb_ge _ _)) by lia.
Qed.

Lemma calculate_backoff_eq attempt u :
  0 ≤ attempt ≤ 1023 →
  calculate_backoff attempt u = Some (jittered_backoff attempt u).
Proof.
  intros Hr. unfold calculate_backoff, pow2.
  rewrite (proj2 (Z.leb_le _ _)) by lia.
  cbn [base_times]. by rewrite float_of_pow2.
Qed.

(** C8, as the code has it.  For an attempt from 0 to 1023 and a jitter
    sample within plus or minus one half, [calculate_backoff] returns a
    delay between 0.1 and 45 seconds: the capped value
    [min(BASE_BACKOFF_SECONDS * 2^attempt, MAX_BACKOFF_SECONDS)] plus that
    value times the sample, floored at 0.1.  From attempt 1024 on the
    product [1.0 * 2 ** attempt] raises [OverflowError] and no delay is
    returned. *)
Theorem calculate_backoff_bounds (attempt : Z) (u : Q) :
  0 ≤ attempt →
  (- BACKOFF_JITTER_RANGE <= u)%Q → (u <= BACKOFF_JITTER_RANGE)%Q →
  (attempt ≤ 1023 →
   ∃ delay, calculate_backoff attempt u = Some delay ∧
     (1 # 10 <= delay)%Q ∧ (delay <= MAX_BACKOFF_SECONDS * (15 # 10))%Q ∧
     (delay <= 45)%Q ∧
     let capped := Qmin (BASE_BACKOFF_SECONDS * inject_Z (2 ^ attempt))
                        MAX_BACKOFF_SECONDS in
     (delay == Qmax (1 # 10) (capped + capped * u))%Q) ∧
  (1024 ≤ attempt → calculate_backoff attempt u = None).
Proof.
  intros Hlo Hu1 Hu2. unfold BACKOFF_JITTER_RANGE in *. split.
  - intros Hhi. eexists. split; [by apply calculate_backoff_eq|].
    unfold jittered_backoff, capped_backoff.
    set (x := (BASE_BACKOFF_SECONDS * inject_Z (2 ^ attempt))%Q).
    assert (1 <= x)%Q as Hx.
    { unfold x, BASE_BACKOFF_SECONDS.
      assert (1 ≤ 2 ^ attempt) as H1 by (apply (Z.pow_le_mono_r 2 0); lia).
      rewrite Zle_Qle in H1. change (inject_Z 1) with 1%Q in H1. lra. }
    assert (1 <= py_min x MAX_BACKOFF_SECONDS
            ∧ py_min x MAX_BACKOFF_SECONDS <= 30)%Q as [Hb1 Hb2].
    { unfold py_min, MAX_BACKOFF_SECONDS. destruct (Qltb 30 x) eqn:E.
      - split; by vm_compute.
      - apply Qltb_false in E. split; lra. }
    set (b := py_min x MAX_BACKOFF_SECONDS) in *.
    assert (b * (1 # 2) <= b + b * u ∧ b + b * u <= b * (3 # 2))%Q as [Hs1 Hs2].
    { split; nra. }
    assert (1 # 10 <= py_max (1 # 10) (b + b * u)
            ∧ py_max (1 # 10) (b + b * u) <= 45)%Q as [Hd1 Hd2].
    { unfold py_max. destruct (Qltb (1 # 10) (b + b * u)) eqn:E.
      - apply Qltb_true in E. split; lra.
      - split; lra. }
    unfold MAX_BACKOFF_SECONDS in *.
    split; [done|]. split; [lra|]. split; [done|].
    cbv zeta. rewrite py_max_spec.
    apply Q.max_compat; [reflexivity|].
    unfold b. rewrite (py_min_spec x 30). reflexivity.
  - intros Hhi. unfold calculate_backoff, pow2.
    rewrite (proj2 (Z.leb_le _ _)) by lia.
    cbn [base_times]. by rewrite float_of_pow2_overflow.
Qed.

(** *** Traces *)

Lemma count_app p tr1 tr2 :
  count p (tr1 ++ tr2) = (count p tr1 + count p tr2)%nat.
Proof. unfold count. by rewrite filter_app, length_app. Qed.

Lemma count_cons p e tr :
  count p (e :: tr) = ((if p e then 1 else 0) + count p tr)%nat.
Proof.
  unfold count. destruct (p e) eqn:E.
  - by rewrite filter_cons_True.
  - rewrite filter_cons_False; [done|]. by rewrite E.
Qed.

Lemma count_nil p : count p [] = 0%nat.
Proof. done. Qed.

Lemma prefix_fst es k : (prefix es k).1 = es ++ k.1.
Proof. done. Qed.

Lemma prefix_snd es k : (prefix es k).2 = k.2.
Proof. done. Qed.

(** *** One attempt of the retry loop *)

Lemma elem_of_statuses3 (c x y z : Z) : c ∈ [x; y; z] ↔ c = x ∨ c = y ∨ c = z.
Proof. rewrite !elem_of_cons, elem_of_nil. tauto. Qed.

Lemma elem_of_statuses4 (c x y z v : Z) :
  c ∈ [x; y; z; v] ↔ c = x ∨ c = y ∨ c = z ∨ c = v.
Proof. rewrite !elem_of_cons, elem_of_nil. tauto. Qed.

Lemma elem_of_statuses5 (c x y z v u : Z) :
  c ∈ [x; y; z; v; u] ↔ c = x ∨ c = y ∨ c = z ∨ c = v ∨ c = u.
Proof. rewrite !elem_of_cons, elem_of_nil. tauto. Qed.

Lemma transient_status code :
  bool_decide (code ∈ [429; 503; 504]) = true →
  (code =? 200) = false ∧ (code =? 409) = false ∧
  is_transient_error (Some code) None = true.
Proof.
  intros H. apply bool_decide_eq_true in H.
  apply elem_of_statuses3 in H as [-> | [-> | ->]]; done.
Qed.

Lemma send_loop_retry t w attempt rest backoff :
  transient_outcome (post_result (w attempt)) = true →
  attempt < MAX_RETRIES →
  calculate_backoff attempt (backoff_sample (w attempt)) = Some backoff →
  send_loop t w (attempt :: rest)
  = prefix (retry_effects t (post_result (w attempt)) backoff)
           (send_loop t w rest).
Proof.
  intros Htr Hlt Hb. cbn [send_loop].
  rewrite (proj2 (Z.ltb_lt _ _) Hlt). unfold backoff_then. rewrite Hb.
  destruct (post_result (w attempt)) as [code body|[| |name]]; cbn in Htr;
    try done.
  apply transient_status in Htr as (-> & -> & ->). done.
Qed.

Lemma send_loop_exhausted t w attempt rest :
  transient_outcome (post_result (w attempt)) = true →
  MAX_RETRIES ≤ attempt →
  send_loop t w (attempt :: rest)
  = (last_effects t (post_result (w attempt)), Returned false).
Proof.
  intros Htr Hge. cbn [send_loop].
  rewrite (proj2 (Z.ltb_ge _ _) Hge).
  destruct (post_result (w attempt)) as [code body|[| |name]]; cbn in Htr;
    try done.
  apply transient_status in Htr as (-> & -> & ->). done.
Qed.

(** An attempt that is not retried ends the call: what it returns, after
    exactly one transmission. *)
Lemma send_loop_decided t w attempt rest :
  let r := post_result (w attempt) in
  let out := send_loop t w (attempt :: rest) in
  (∀ body, r = Responded 409 body →
     out = ([Log "INFO" "sending_telemetry"; Post t;
             Log "INFO" "duplicate_acknowledged"], Returned true)) ∧
  (∀ cid, r = Responded 200 (JsonObject cid) →
     out = ([Log "INFO" "sending_telemetry"; Post t;
             Log "INFO" "telemetry_sent_success"], Returned true)) ∧
  (∀ body, r = Responded 200 body →
     body = NotJson ∨ body = JsonNonObject →
     out = ([Log "INFO" "sending_telemetry"; Post t;
             Log "ERROR" "unexpected_error"], Returned false)) ∧
  (∀ code body, r = Responded code body →
     code ∉ [200; 409; 429; 503; 504] →
     out = ([Log "INFO" "sending_telemetry"; Post t;
             Log "ERROR" "non_transient_error"], Returned false)) ∧
  (∀ name, r = Raised (OtherException name) →
     out = ([Log "INFO" "sending_telemetry"; Post t;
             Log "ERROR" "unexpected_error"], Returned false)).
Proof.
  intros r out. subst r out. cbn [send_loop]. repeat split.
  - intros body ->. done.
  - intros cid ->. done.
  - intros body -> [-> | ->]; done.
  - intros code body -> Hcode.
    rewrite elem_of_statuses5 in Hcode.
    assert (code ≠ 200 ∧ code ≠ 409) as [H1 H2] by tauto.
    rewrite (proj2 (Z.eqb_neq _ _) H1), (proj2 (Z.eqb_neq _ _) H2).
    assert (is_transient_error (Some code) None = false) as ->; [|done].
    unfold is_transient_error. destruct (code =? 0); [done|].
    rewrite bool_decide_eq_false_2; [by destruct (bool_decide _)|].
    rewrite elem_of_statuses3. tauto.
  - intros name ->. done.
Qed.

(** How the sender classifies what an attempt observes. *)
Lemma classification :
  (∀ code, code ∈ [429; 503; 504] → is_transient_error (Some code) None = true) ∧
  (∀ code, code ∈ [400; 401; 403; 409] →
     is_transient_error (Some code) None = false) ∧
  is_transient_error None (Some Timeout) = true ∧
  is_transient_error None (Some ConnectionError) = true ∧
  (∀ name code, is_transient_error code (Some (OtherException name)) = false) ∧
  (∀ code, code ∉ [429; 503; 504] → is_transient_error (Some code) None = false).
Proof.
  split; [|split; [|split; [|split; [|split]]]]; try reflexivity.
  - intros code H. apply transient_status. by apply bool_decide_eq_true.
  - intros code H.
    apply elem_of_statuses4 in H as [-> | [-> | [-> | ->]]]; done.
  - intros code H. unfold is_transient_error. destruct (code =? 0); [done|].
    rewrite bool_decide_eq_false_2 by done. by destruct (bool_decide _).
Qed.

(** *** The whole retry loop *)

Lemma send_loop_effects t w attempts :
  Forall (send_effect t) (send_loop t w attempts).1.
Proof.
  induction attempts as [|attempt rest IH]; [by constructor|].
  cbn [send_loop]. unfold backoff_then.
  repeat match goal with
         | |- context [match ?x with _ => _ end] => destruct x
         end;
    rewrite ?prefix_fst; cbn [fst];
    repeat first [ apply Forall_nil_2
                 | apply Forall_cons; split; [done|]
                 | apply Forall_app; split
                 | exact IH ].
Qed.

Lemma send_effect_no_decide t tr f :
  Forall (send_effect t) tr → count (is_decide f) tr = 0%nat.
Proof.
  induction 1 as [|e tr He _ IH]; [done|].
  rewrite count_cons, IH. by destruct e, f.
Qed.

Lemma send_effect_posts t tr e :
  Forall (send_effect t) tr → e ∈ tr → is_post e = true → e = Post t.
Proof.
  intros Hall He Hp. rewrite Forall_forall in Hall. specialize (Hall e He).
  destruct e; try done. cbn in Hall. by subst.
Qed.

(** C3. When every attempt meets a transient result, [send_with_retry]
    transmits MAX_RETRIES + 1 times, sleeps MAX_RETRIES times (the
    backoffs of attempts 0 to MAX_RETRIES - 1, in order), does not sleep
    after the last transmission, and returns False. *)
Theorem all_transient_exhausts_retries (t : Telemetry) (w : Z → AttemptWorld) :
  (∀ attempt, 0 ≤ attempt ≤ MAX_RETRIES →
     transient_outcome (post_result (w attempt)) = true) →
  let out := send_with_retry t w in
  out.2 = Returned false ∧
  count is_post out.1 = Z.to_nat (MAX_RETRIES + 1) ∧
  count is_sleep out.1 = Z.to_nat MAX_RETRIES ∧
  (∃ delays,
     Forall2 (λ attempt delay,
                calculate_backoff attempt (backoff_sample (w attempt)) = Some delay)
             (range MAX_RETRIES) delays ∧
     filter (λ e, is_sleep e = true) out.1 = Sleep <$> delays) ∧
  (∃ before final,
     out.1 = before ++ Post t :: final ∧
     count is_post before = Z.to_nat MAX_RETRIES ∧
     count is_post final = 0%nat ∧ count is_sleep final = 0%nat).
Proof.
  intros Htr out. subst out. unfold send_with_retry.
  change (range (MAX_RETRIES + 1)) with [0; 1; 2; 3; 4; 5].
  change (range MAX_RETRIES) with [0; 1; 2; 3; 4].
  unfold MAX_RETRIES in Htr.
  assert (∀ a, 0 ≤ a ≤ 4 →
            calculate_backoff a (backoff_sample (w a))
            = Some (jittered_backoff a (backoff_sample (w a)))) as Hb.
  { intros a Ha. apply calculate_backoff_eq. lia. }
  rewrite (send_loop_retry t w 0 _ _ (Htr 0 ltac:(lia)) eq_refl (Hb 0 ltac:(lia))).
  rewrite (send_loop_retry t w 1 _ _ (Htr 1 ltac:(lia)) eq_refl (Hb 1 ltac:(lia))).
  rewrite (send_loop_retry t w 2 _ _ (Htr 2 ltac:(lia)) eq_refl (Hb 2 ltac:(lia))).
  rewrite (send_loop_retry t w 3 _ _ (Htr 3 ltac:(lia)) eq_refl (Hb 3 ltac:(lia))).
  rewrite (send_loop_retry t w 4 _ _ (Htr 4 ltac:(lia)) eq_refl (Hb 4 ltac:(lia))).
  rewrite (send_loop_exhausted t w 5 _ (Htr 5 ltac:(lia)) ltac:(done)).
  rewrite !prefix_fst, !prefix_snd. cbn [fst snd].
  unfold retry_effects, last_effects.
  split; [done|]. split; [done|]. split; [done|]. split.
  - eexists [_; _; _; _; _]. split.
    + repeat (apply Forall2_cons; split; [apply Hb; lia|]). apply Forall2_nil_2.
    + reflexivity.
  - exists (retry_effects t (post_result (w 0))
              (jittered_backoff 0 (backoff_sample (w 0)))
            ++ retry_effects t (post_result (w 1))
                 (jittered_backoff 1 (backoff_sample (w 1)))
            ++ retry_effects t (post_result (w 2))
                 (jittered_backoff 2 (backoff_sample (w 2)))
            ++ retry_effects t (post_result (w 3))
                 (jittered_backoff 3 (backoff_sample (w 3)))
            ++ retry_effects t (post_result (w 4))
                 (jittered_backoff 4 (backoff_sample (w 4)))
            ++ [Log "INFO" "sending_telemetry"]),
           [Log "WARN" (transient_event (post_result (w 5)));
            Log "ERROR" (exhausted_event (post_result (w 5)))].
    split; [reflexivity|]. split; [reflexivity|]. split; reflexivity.
Qed.

(** C2, at the input on which the code departs from it: a response with
    status 200 whose body does not decode.  [response.json()], evaluated
    for the success log line inside the [try], raises; the catch-all
    handler logs [unexpected_error] and the call returns False after this
    one transmission, where the docstring promises True for a telemetry
    that was sent. *)
Theorem status_200_undecodable_body_returns_false (t : Telemetry) (u : Q) :
  send_with_retry t
    (λ _, {| post_result := Responded 200 NotJson; backoff_sample := u |})
  = ([Log "INFO" "sending_telemetry"; Post t; Log "ERROR" "unexpected_error"],
     Returned false).
Proof. reflexivity. Qed.

(** *** One cycle of the main loop *)

Lemma main_cycle_dropped sequence_id w :
  Qltb (drop_sample w) PACKET_DROP_PROBABILITY = true →
  main_cycle sequence_id w
  = ([Decide Drop true; Log "WARN" "packet_dropped";
      Sleep TELEMETRY_INTERVAL_SECONDS], inr (sequence_id + 1)).
Proof. intros H. unfold main_cycle, simulate_packet_drop. by rewrite H. Qed.

Lemma main_cycle_sent sequence_id w b :
  let t := generate_telemetry sequence_id (readings w) in
  Qltb (drop_sample w) PACKET_DROP_PROBABILITY = false →
  (send_with_retry t (first_send w)).2 = Returned b →
  (main_cycle sequence_id w).1
  = [Decide Drop false]
    ++ simulate_jitter (jitter_sample w) (jitter_delay w)
    ++ (send_with_retry t (first_send w)).1
    ++ (simulate_duplicate (duplicate_sample w)).1
    ++ (if (simulate_duplicate (duplicate_sample w)).2
        then [Sleep (1 # 2)]
             ++ (send_with_retry t (second_send w)).1
             ++ match (send_with_retry t (second_send w)).2 with
                | Returned _ => [Sleep TELEMETRY_INTERVAL_SECONDS]
                | Raising _ => []
                end
        else [Sleep TELEMETRY_INTERVAL_SECONDS]).
Proof.
  intros t Hdrop Hret. unfold main_cycle, simulate_packet_drop.
  rewrite Hdrop. fold t.
  destruct (send_with_retry t (first_send w)) as [e_send r1]. cbn [fst snd] in *.
  subst r1.
  destruct (simulate_duplicate (duplicate_sample w)) as [e_dup []]; cbn [fst snd].
  - destruct (send_with_retry t (second_send w)) as [e_resend [b2|e2]];
      cbn [fst snd]; [done|]. by rewrite app_nil_r.
  - done.
Qed.

Lemma count_decide_send t aw f :
  count (is_decide f) (send_with_retry t aw).1 = 0%nat.
Proof. apply (send_effect_no_decide t). apply send_loop_effects. Qed.

(** The tail of a cycle after its first send: the duplicate decision and
    what follows it, for a second send with trace [resend] and completion
    [r2]. *)
Lemma count_decide_tail f (dup : list Effect * bool) resend (r2 : Completion) :
  f ≠ Duplicate →
  count (is_decide f) dup.1 = 0%nat →
  count (is_decide f) resend = 0%nat →
  count (is_decide f)
    (dup.1 ++ (if dup.2
               then [Sleep (1 # 2)] ++ resend
                    ++ match r2 with
                       | Returned _ => [Sleep TELEMETRY_INTERVAL_SECONDS]
                       | Raising _ => []
                       end
               else [Sleep TELEMETRY_INTERVAL_SECONDS])) = 0%nat.
Proof.
  intros Hf Hdup Hre. rewrite count_app, Hdup.
  destruct dup.2; [|by destruct f].
  rewrite !count_app, Hre. destruct r2; by destruct f.
Qed.

Lemma count_decide_duplicate f r :
  f ≠ Duplicate → count (is_decide f) (simulate_duplicate r).1 = 0%nat.
Proof.
  intros Hf. unfold simulate_duplicate.
  destruct (Qltb r DUPLICATE_PROBABILITY); by destruct f.
Qed.

Lemma main_cycle_head sequence_id w :
  let t := generate_telemetry sequence_id (readings w) in
  Qltb (drop_sample w) PACKET_DROP_PROBABILITY = false →
  ∃ rest,
    (main_cycle sequence_id w).1
    = [Decide Drop false]
      ++ simulate_jitter (jitter_sample w) (jitter_delay w)
      ++ (send_with_retry t (first_send w)).1 ++ rest ∧
    count (is_decide Drop) rest = 0%nat ∧
    count (is_decide Jitter) rest = 0%nat.
Proof.
  intros t Hdrop.
  destruct (send_with_retry t (first_send w)) as [e_send [b|e]] eqn:E1.
  - pose proof (main_cycle_sent sequence_id w b Hdrop) as H.
    fold t in H. rewrite E1 in H. specialize (H eq_refl).
    eexists. split; [exact H|].
    split; apply count_decide_tail;
      (done || apply count_decide_duplicate || apply count_decide_send); done.
  - exists []. unfold main_cycle, simulate_packet_drop. rewrite Hdrop.
    fold t. rewrite E1. by rewrite app_nil_r.
Qed.

Lemma count_decide_jitter r delay :
  count (is_decide Jitter) (simulate_jitter r delay) = 1%nat ∧
  count (is_decide Drop) (simulate_jitter r delay) = 0%nat ∧
  count (is_decide Duplicate) (simulate_jitter r delay) = 0%nat.
Proof. unfold simulate_jitter. by destruct (Qltb r JITTER_PROBABILITY). Qed.

(** C7, as the code has it.  The drop decision and then the delay
    decision are taken once per send cycle, in [main], before the first
    transmission; [send_with_retry] takes no fault decision, so a retry
    after a transient failure transmits without a new drop or delay
    decision. *)
Theorem fault_decisions_once_per_cycle (sequence_id : Z) (w : CycleWorld) :
  let t := generate_telemetry sequence_id (readings w) in
  let tr := (main_cycle sequence_id w).1 in
  (∀ t' aw f, count (is_decide f) (send_with_retry t' aw).1 = 0%nat) ∧
  count (is_decide Drop) tr = 1%nat ∧
  if Qltb (drop_sample w) PACKET_DROP_PROBABILITY then
    tr = [Decide Drop true; Log "WARN" "packet_dropped";
          Sleep TELEMETRY_INTERVAL_SECONDS]
  else
    count (is_decide Jitter) tr = 1%nat ∧
    ∃ rest,
      tr = [Decide Drop false]
           ++ simulate_jitter (jitter_sample w) (jitter_delay w)
           ++ (send_with_retry t (first_send w)).1 ++ rest ∧
      count (is_decide Drop) rest = 0%nat ∧
      count (is_decide Jitter) rest = 0%nat.
Proof.
  intros t tr. split; [apply count_decide_send|]. subst tr.
  destruct (Qltb (drop_sample w) PACKET_DROP_PROBABILITY) eqn:Hdrop.
  - rewrite (main_cycle_dropped _ _ Hdrop). by split.
  - destruct (main_cycle_head sequence_id w Hdrop) as (rest & -> & Hd & Hj).
    fold t.
    pose proof (count_decide_send t (first_send w) Drop) as Hs1.
    pose proof (count_decide_send t (first_send w) Jitter) as Hs2.
    destruct (count_decide_jitter (jitter_sample w) (jitter_delay w))
      as (Hj1 & Hj2 & _).
    generalize dependent (send_with_retry t (first_send w)).
    generalize dependent (simulate_jitter (jitter_sample w) (jitter_delay w)).
    intros jit Hj1 Hj2 snd Hs1 Hs2.
    rewrite !count_app, Hs1, Hs2, Hd, Hj, Hj1, Hj2.
    split; [done|]. split; [done|]. eauto.
Qed.

(** C6, as the code has it.  In a cycle that is not dropped, the duplicate
    decision is taken once, after the first [send_with_retry] has
    returned, whether it returned True or False; when it triggers, the
    same telemetry is sent again by a second [send_with_retry] after a
    pause of half a second. *)
Theorem duplicate_decided_after_every_send
    (sequence_id : Z) (w : CycleWorld) (b : bool) :
  let t := generate_telemetry sequence_id (readings w) in
  Qltb (drop_sample w) PACKET_DROP_PROBABILITY = false →
  (send_with_retry t (first_send w)).2 = Returned b →
  let tr := (main_cycle sequence_id w).1 in
  let head := [Decide Drop false]
              ++ simulate_jitter (jitter_sample w) (jitter_delay w)
              ++ (send_with_retry t (first_send w)).1 in
  count (is_decide Duplicate) tr = 1%nat ∧
  Forall (send_effect t) (send_with_retry t (second_send w)).1 ∧
  if Qltb (duplicate_sample w) DUPLICATE_PROBABILITY then
    ∃ tail,
      tr = head
           ++ [Decide Duplicate true; Log "WARN" "duplicate_triggered";
               Sleep (1 # 2)]
           ++ (send_with_retry t (second_send w)).1 ++ tail ∧
      count is_post tail = 0%nat
  else
    tr = head ++ [Decide Duplicate false; Sleep TELEMETRY_INTERVAL_SECONDS].
Proof.
  intros t Hdrop Hret tr head. subst tr head.
  rewrite (main_cycle_sent sequence_id w b Hdrop Hret). fold t.
  pose proof (count_decide_send t (first_send w) Duplicate) as H1.
  pose proof (count_decide_send t (second_send w) Duplicate) as H2.
  pose proof (send_loop_effects t (second_send w) (range (MAX_RETRIES + 1))) as H3.
  fold (send_with_retry t (second_send w)) in H3.
  destruct (count_decide_jitter (jitter_sample w) (jitter_delay w))
    as (_ & _ & Hj).
  clear Hret.
  generalize dependent (send_with_retry t (second_send w)).
  generalize dependent (send_with_retry t (first_send w)).
  generalize dependent (simulate_jitter (jitter_sample w) (jitter_delay w)).
  intros jit Hj snd1 H1 snd2 H2 H3.
  unfold simulate_duplicate.
  destruct (Qltb (duplicate_sample w) DUPLICATE_PROBABILITY); cbn [fst snd].
  - split; [|split; [done|]].
    + rewrite !count_app, Hj, H1, H2. by destruct snd2.2.
    + eexists. split.
      * rewrite <- !app_assoc. reflexivity.
      * by destruct snd2.2.
  - split; [|split; [done|]].
    + by rewrite !count_app, Hj, H1.
    + by rewrite <- !app_assoc.
Qed.

(** *** The theorems at concrete inputs *)

Import Examples.

Ltac qcmp := unfold Qle, Qlt; cbn; lia.

Lemma calculate_backoff_bounds_witness :
  0 ≤ 3 ∧ 3 ≤ 1023 ∧
  ∃ delay, calculate_backoff 3 (1 # 4) = Some delay ∧
           (1 # 10 <= delay)%Q ∧ (delay <= 45)%Q.
Proof.
  split; [lia|]. split; [lia|].
  destruct (calculate_backoff_bounds 3 (1 # 4)) as [H _].
  - lia.
  - qcmp.
  - qcmp.
  - destruct H as (delay & Hd & Hlo & _ & Hhi & _); [lia|]. eauto.
Defined.

(** C8, as stated, fails on the code: at attempt 1024 the product
    [1.0 * 2 ** 1024] raises [OverflowError], so no delay is returned. *)
Lemma calculate_backoff_overflows :
  0 ≤ 1024 ∧ (- (1 # 2) <= 0 # 1)%Q ∧ (0 # 1 <= 1 # 2)%Q ∧
  calculate_backoff 1024 (0 # 1) = None.
Proof. repeat split; by vm_compute. Qed.

Lemma all_transient_exhausts_retries_witness :
  let t := generate_telemetry 0 readings0 in
  let out := send_with_retry t (always (Responded 503 NotJson)) in
  transient_outcome (Responded 503 NotJson) = true ∧
  out.2 = Returned false ∧ count is_post out.1 = 6%nat ∧
  count is_sleep out.1 = 5%nat.
Proof.
  intros t out. split; [done|].
  destruct (all_transient_exhausts_retries t (always (Responded 503 NotJson)))
    as (H1 & H2 & H3 & _).
  - intros attempt _. reflexivity.
  - split; [exact H1|]. split; [exact H2 | exact H3].
Defined.

Lemma duplicate_decided_after_every_send_witness :
  let t := generate_telemetry 0 readings0 in
  (send_with_retry t (first_send cycle_refused_then_duplicated)).2
    = Returned false ∧
  count (is_decide Duplicate) (main_cycle 0 cycle_refused_then_duplicated).1
    = 1%nat.
Proof.
  intros t. split; [reflexivity|].
  destruct (duplicate_decided_after_every_send 0 cycle_refused_then_duplicated
              false) as [H _].
  - reflexivity.
  - reflexivity.
  - exact H.
Defined.

(** C6, as stated, fails on the code: the first send of the cycle returns
    False, and still the duplicate decision is taken and the telemetry is
    transmitted a second time. *)
Lemma duplicate_resent_after_failure :
  ¬ duplicate_only_after_delivery 0 cycle_refused_then_duplicated.
Proof.
  unfold duplicate_only_after_delivery. intros H.
  destruct (H eq_refl) as [H1 _]. vm_compute in H1. discriminate.
Qed.

(** C7, as stated, fails on the code: in a cycle whose first attempt is
    answered 503, the retry transmits with no drop or delay decision
    since the first transmission. *)
Lemma retry_without_fault_decisions :
  let tr := (main_cycle 0 cycle_with_retry).1 in
  decided_before_each_post false false tr = false ∧
  count is_post tr = 2%nat ∧
  count (is_decide Drop) tr = 1%nat ∧
  count (is_decide Jitter) tr = 1%nat.
Proof. repeat split; by vm_compute. Qed.

End DeviceFacts.


(** ** More on the receiving service *)

Module EdgeMore.
Import Edge EdgeFacts Examples.

Ltac qcmp := unfold Qle, Qlt; cbn; lia.

(** *** The cache *)

(** X1. Two (device, sequence) pairs share a cache key only if they are
    the same pair, whatever characters the device identifiers contain. *)
Theorem cache_key_injective (d1 d2 : string) (s1 s2 : Z) :
  cache_key d1 s1 = cache_key d2 s2 ↔ d1 = d2 ∧ s1 = s2.
Proof.
  split.
  - apply cache_key_inj.
  - by intros [-> ->].
Qed.

Lemma cleanup_eq now c c' :
  ttl_seconds c = ttl_seconds c' →
  (∀ k, cache (_cleanup now c) !! k = cache c' !! k) →
  _cleanup now c = c'.
Proof.
  intros Httl Hk. destruct c' as [m' ttl']. cbn in *. unfold _cleanup.
  f_equal; [|done]. apply map_eq. intros k. apply (Hk k).
Qed.

(** X2. A cleanup pass leaves only entries that expire at the current
    time or later, and leaves them as they were; a pass at a later time
    makes an earlier pass redundant, in either order, so repeating a pass
    changes nothing. *)
Theorem cleanup_passes_compose (now1 now2 : Q) (c : MessageCache) :
  (now1 <= now2)%Q →
  (∀ k e, cache (_cleanup now2 c) !! k = Some e ↔
          cache c !! k = Some e ∧ (now2 <= e)%Q) ∧
  _cleanup now2 (_cleanup now1 c) = _cleanup now2 c ∧
  _cleanup now1 (_cleanup now2 c) = _cleanup now2 c ∧
  _cleanup now2 (_cleanup now2 c) = _cleanup now2 c.
Proof.
  intros Hle.
  assert (∀ a b, (a <= b)%Q →
            ∀ k, cache (_cleanup a (_cleanup b c)) !! k
                 = cache (_cleanup b c) !! k) as Hlater.
  { intros a b Hab k. rewrite (cleanup_lookup a), (cleanup_lookup b).
    destruct (cache c !! k) as [e|]; [|done]. unfold expired.
    destruct (Qltb e b) eqn:Eb; [done|]. apply Qltb_false in Eb.
    assert (Qltb e a = false) as ->; [|done]. apply Qltb_false. lra. }
  split; [|split; [|split]].
  - intros k e. rewrite cleanup_lookup. unfold expired.
    destruct (cache c !! k) as [e'|]; [|split; [done | by intros [? _]]].
    destruct (Qltb e' now2) eqn:E.
    + apply Qltb_true in E. split; [done|]. intros [[= ->] H]. lra.
    + apply Qltb_false in E. split; [by intros [= ->]|]. by intros [[= ->] _].
  - apply cleanup_eq; [done|]. intros k.
    rewrite (cleanup_lookup now2 (_cleanup now1 c)), (cleanup_lookup now1),
      (cleanup_lookup now2 c).
    destruct (cache c !! k) as [e|]; [|done]. unfold expired.
    destruct (Qltb e now1) eqn:E1; [|done]. apply Qltb_true in E1.
    assert (Qltb e now2 = true) as ->; [|done]. apply Qltb_true. lra.
  - apply cleanup_eq; [done|]. by apply Hlater.
  - apply cleanup_eq; [done|]. apply Hlater. apply Qle_refl.
Qed.

Lemma cleanup_passes_compose_witness :
  let c := mark_seen (100 # 1) "device-001" 7
             (mark_seen (0 # 1) "device-001" 6 (MessageCache_init 300)) in
  (350 # 1 <= 350 # 1)%Q ∧
  cache (_cleanup (350 # 1) c) !! cache_key "device-001" 6 = None ∧
  _cleanup (350 # 1) (_cleanup (350 # 1) c) = _cleanup (350 # 1) c.
Proof.
  intros c. split; [qcmp|]. split; [by vm_compute|].
  destruct (cleanup_passes_compose (350 # 1) (350 # 1) c) as (_ & H & _).
  - qcmp.
  - exact H.
Defined.

(** X3. Marking one pair never changes what [has_seen] answers for
    another pair. *)
Theorem mark_seen_frames_other_keys
    (c : MessageCache) (d d' : string) (s s' : Z) (t now : Q) :
  (d', s') ≠ (d, s) →
  (has_seen now d' s' (mark_seen t d s c)).1 = (has_seen now d' s' c).1.
Proof.
  intros Hne. unfold has_seen. cbn [fst]. f_equal.
  rewrite !cleanup_lookup, mark_seen_lookup_ne; [done|].
  by apply cache_key_ne.
Qed.

Lemma mark_seen_frames_other_keys_witness :
  ("device-001", 17) ≠ ("device-001:1", 7) ∧
  (has_seen (5 # 1) "device-001" 17
     (mark_seen (0 # 1) "device-001:1" 7 (MessageCache_init 300))).1 = false.
Proof.
  split; [congruence|].
  rewrite mark_seen_frames_other_keys; [by vm_compute|congruence].
Defined.

(** *** The endpoint *)

(** X4. The overload gate comes first: when it fires the reply is 503
    whatever the message (a negative sequence number included), the cache
    is left as it was, and only the received and 503 counters move. *)
Theorem overload_precedes_validation
    (m : TelemetryMessage) (w : World) (st : State) :
  Qltb (random w) OVERLOAD_PROBABILITY = true →
  let r := ingest_telemetry m w st in
  http_status (response r) = 503 ∧ outcome r = Overloaded ∧
  message_cache (after r) = message_cache st ∧
  metrics (after r) = incr_transient_503 (incr_received (metrics st)) ∧
  (∀ m' st' t1 t2,
     response (ingest_telemetry m' (with_clock w t1 t2) st') = response r).
Proof.
  intros Hov r. subst r. unfold ingest_telemetry, outcome.
  rewrite Hov. cbn. repeat split. intros m' st' t1 t2. by rewrite Hov.
Qed.

Lemma overload_precedes_validation_witness :
  let w := {| uuid4 := "a"; random := 1 # 20;
              time_check := 100 # 1; time_mark := 100 # 1 |} in
  Qltb (random w) OVERLOAD_PROBABILITY = true ∧
  outcome (ingest_telemetry (message (-1)) w initial_state) = Overloaded.
Proof.
  intros w. split; [reflexivity|].
  destruct (overload_precedes_validation (message (-1)) w initial_state)
    as (_ & H & _); [reflexivity | exact H].
Defined.

Lemma tally_cons o rp rps :
  tally o (rp :: rps) = (if decide (outcome rp = o) then 1 else 0) + tally o rps.
Proof.
  unfold tally. destruct (decide (outcome rp = o)) as [E|E].
  - rewrite filter_cons_True by done. cbn [length]. lia.
  - rewrite filter_cons_False by done. lia.
Qed.

Lemma ingest_metrics m w st :
  let rp := ingest_telemetry m w st in
  metrics (after rp) =
  match outcome rp with
  | Accepted => incr_accepted
  | DuplicateAcknowledged => incr_duplicates
  | Rejected => incr_rejected
  | Overloaded => incr_transient_503
  end (incr_received (metrics st)).
Proof.
  cbv zeta. unfold ingest_telemetry, outcome.
  destruct (Qltb _ _); [reflexivity|]. destruct (_ <? _); [reflexivity|].
  destruct (has_seen _ _ _ _) as [[] c1]; reflexivity.
Qed.

(** X5. Over any run every request is counted once as received and once
    under its outcome: each counter grows by the number of replies with
    that outcome, so received = accepted + duplicates + rejected + 503
    keeps holding, and [/metrics] reports these five numbers, each under
    the name of its counter, and nothing else. *)
Theorem metrics_count_outcomes (reqs : list Request) (st : State) :
  let rps := (run reqs st).1 in
  let st' := (run reqs st).2 in
  received_total (metrics st')
    = received_total (metrics st) + Z.of_nat (length reqs) ∧
  accepted_total (metrics st')
    = accepted_total (metrics st) + tally Accepted rps ∧
  duplicates_total (metrics st')
    = duplicates_total (metrics st) + tally DuplicateAcknowledged rps ∧
  rejected_total (metrics st')
    = rejected_total (metrics st) + tally Rejected rps ∧
  transient_503_total (metrics st')
    = transient_503_total (metrics st) + tally Overloaded rps ∧
  (received_total (metrics st)
     = accepted_total (metrics st) + duplicates_total (metrics st)
       + rejected_total (metrics st) + transient_503_total (metrics st) →
   received_total (metrics st')
     = accepted_total (metrics st') + duplicates_total (metrics st')
       + rejected_total (metrics st') + transient_503_total (metrics st')) ∧
  get_metrics st' !! "received_total"
    = Some (received_total (metrics st) + Z.of_nat (length reqs)) ∧
  get_metrics st' !! "accepted_total"
    = Some (accepted_total (metrics st) + tally Accepted rps) ∧
  get_metrics st' !! "duplicates_total"
    = Some (duplicates_total (metrics st) + tally DuplicateAcknowledged rps) ∧
  get_metrics st' !! "rejected_total"
    = Some (rejected_total (metrics st) + tally Rejected rps) ∧
  get_metrics st' !! "transient_503_total"
    = Some (transient_503_total (metrics st) + tally Overloaded rps) ∧
  dom (get_metrics st')
    = list_to_set ["received_total"; "accepted_total"; "duplicates_total";
                   "rejected_total"; "transient_503_total"].
Proof.
  cbv zeta.
  assert (received_total (metrics (run reqs st).2)
            = received_total (metrics st) + Z.of_nat (length reqs) ∧
          accepted_total (metrics (run reqs st).2)
            = accepted_total (metrics st) + tally Accepted (run reqs st).1 ∧
          duplicates_total (metrics (run reqs st).2)
            = duplicates_total (metrics st)
              + tally DuplicateAcknowledged (run reqs st).1 ∧
          rejected_total (metrics (run reqs st).2)
            = rejected_total (metrics st) + tally Rejected (run reqs st).1 ∧
          transient_503_total (metrics (run reqs st).2)
            = transient_503_total (metrics st) + tally Overloaded (run reqs st).1)
    as (H1 & H2 & H3 & H4 & H5).
  { revert st. induction reqs as [|r reqs IH]; intros st.
    - cbn. unfold tally. cbn. lia.
    - rewrite run_cons. cbv zeta. cbn [fst snd length].
      destruct (IH (after (ingest_telemetry (msg r) (world r) st)))
        as (I1 & I2 & I3 & I4 & I5).
      rewrite I1, I2, I3, I4, I5, !tally_cons, ingest_metrics.
      destruct (outcome (ingest_telemetry (msg r) (world r) st)); cbn;
        repeat split; repeat case_decide; try congruence; lia. }
  split; [done|]. split; [done|]. split; [done|]. split; [done|].
  split; [done|]. split.
  - intros Hbal. rewrite H1, H2, H3, H4, H5, Hbal.
    assert (∀ rps, Z.of_nat (length rps)
              = tally Accepted rps + tally DuplicateAcknowledged rps
                + tally Rejected rps + tally Overloaded rps) as Hsum.
    { induction rps as [|rp rps IHr]; [done|].
      rewrite !tally_cons. cbn [length].
      destruct (outcome rp); repeat case_decide; try congruence; lia. }
    rewrite <- (run_length reqs st), Hsum. lia.
  - unfold get_metrics, to_dict. rewrite <- H1, <- H2, <- H3, <- H4, <- H5.
    repeat split; reflexivity.
Qed.

Lemma metrics_count_outcomes_witness :
  let reqs := [request 7 "a" (100 # 1); request 7 "b" (101 # 1);
               request (-1) "c" (102 # 1)] in
  let st' := (run reqs initial_state).2 in
  received_total (metrics st') = 3 ∧
  received_total (metrics st')
    = accepted_total (metrics st') + duplicates_total (metrics st')
      + rejected_total (metrics st') + transient_503_total (metrics st') ∧
  get_metrics st' !! "duplicates_total" = Some 1 ∧
  get_metrics st' !! "rejected_total" = Some 1 ∧
  get_metrics st' !! "transient_503_total" = Some 0.
Proof.
  intros reqs st'.
  destruct (metrics_count_outcomes reqs initial_state)
    as (H1 & _ & _ & _ & _ & H6 & _ & _ & H9 & H10 & H11 & _).
  split; [exact H1|]. split; [apply H6; reflexivity|].
  split; [exact H9|]. split; [exact H10 | exact H11].
Defined.

Lemma accepted_passed_gates m w st :
  outcome (ingest_telemetry m w st) = Accepted →
  Qltb (random w) OVERLOAD_PROBABILITY = false ∧ 0 ≤ sequence_id m.
Proof.
  unfold ingest_telemetry, outcome.
  destruct (Qltb _ _); [done|]. destruct (_ <? _) eqn:E; [done|].
  intros _. split; [done|]. by apply Z.ltb_ge.
Qed.

(** X6. Whatever is in the cache after a run was there before it, or is
    the key of a request of the run that was Accepted, a request with a
    non-negative sequence number, with the expiry its [mark_seen] wrote:
    rejected, overloaded and duplicate requests leave no entry. *)
Theorem cache_entries_come_from_accepts (reqs : list Request) (st : State) :
  ∀ k e, cache (message_cache (run reqs st).2) !! k = Some e →
    cache (message_cache st) !! k = Some e ∨
    ∃ i r rp, reqs !! i = Some r ∧ (run reqs st).1 !! i = Some rp ∧
      outcome rp = Accepted ∧ 0 ≤ sequence_id (msg r) ∧
      k = cache_key (device_id (msg r)) (sequence_id (msg r)) ∧
      e = float_add_int (time_mark (world r)) (ttl_seconds (message_cache st)).
Proof.
  revert st. induction reqs as [|r reqs IH]; intros st k e Hk; [by left|].
  rewrite run_cons in Hk |- *. cbv zeta in *. cbn [fst snd] in *.
  set (rp := ingest_telemetry (msg r) (world r) st) in *.
  destruct (IH (after rp) k e Hk) as [H1|(i & r' & rp' & Hi & Hrp & Ho & Hs & -> & ->)].
  - destruct (ingest_cases (msg r) (world r) st)
      as [[_ Hst]|[[_ Hst]|[(_ & Hst & _)|(Ho & Hst & _)]]];
      fold rp in Hst; rewrite Hst in H1.
    + by left.
    + by left.
    + left. by eapply lookup_weaken; [|apply cleanup_subseteq].
    + fold rp in Ho.
      destruct (decide (k = cache_key (device_id (msg r)) (sequence_id (msg r))))
        as [->|Hne].
      * right. exists 0%nat, r, rp.
        rewrite mark_seen_lookup, cleanup_ttl in H1. injection H1 as <-.
        repeat split; try done.
        by apply (accepted_passed_gates (msg r) (world r) st).
      * left. rewrite mark_seen_lookup_ne in H1 by done.
        by eapply lookup_weaken; [|apply cleanup_subseteq].
  - right. exists (S i), r', rp'. unfold rp. by rewrite ingest_ttl.
Qed.

Lemma cache_entries_come_from_accepts_witness :
  let reqs := [request (-1) "a" (99 # 1); request 7 "b" (100 # 1)] in
  let k := cache_key "device-001" 7 in
  cache (message_cache (run reqs initial_state).2) !! k = Some (400 # 1) ∧
  (cache (message_cache initial_state) !! k = Some (400 # 1) ∨
   ∃ i r rp, reqs !! i = Some r ∧ (run reqs initial_state).1 !! i = Some rp ∧
     outcome rp = Accepted ∧ 0 ≤ sequence_id (msg r) ∧
     k = cache_key (device_id (msg r)) (sequence_id (msg r)) ∧
     (400 # 1)%Q = float_add_int (time_mark (world r))
                     (ttl_seconds (message_cache initial_state))).
Proof.
  intros reqs k. split; [by vm_compute|].
  apply (cache_entries_come_from_accepts reqs initial_state k (400 # 1)).
  by vm_compute.
Defined.

(** X7. The TTL is not a permanent record: once the expiry stored by an
    acceptance, the double nearest to its [mark_seen] time plus the TTL,
    has passed, the same message is Accepted again, and its entry then
    holds the expiry computed likewise from the new [mark_seen] time. *)
Theorem accepted_again_after_expiry
    (m : TelemetryMessage) (w1 w2 : World) (st : State) :
  let r1 := ingest_telemetry m w1 st in
  let r2 := ingest_telemetry m w2 (after r1) in
  let ttl := ttl_seconds (message_cache st) in
  outcome r1 = Accepted →
  Qltb (random w2) OVERLOAD_PROBABILITY = false →
  (float_add_int (time_mark w1) ttl < time_check w2)%Q →
  outcome r2 = Accepted ∧
  cache (message_cache (after r2)) !! cache_key (device_id m) (sequence_id m)
    = Some (float_add_int (time_mark w2) ttl).
Proof.
  intros r1 r2 ttl Ho1 Hno2 Hlate.
  destruct (accepted_passed_gates m w1 st Ho1) as [_ Hpos].
  destruct (ingest_cases m w1 st)
    as [[Ho _]|[[Ho _]|[(Ho & _)|(_ & Hst & _)]]];
    try (fold r1 in Ho; congruence).
  fold r1 in Hst.
  pose proof (ingest_checked m w2 (after r1) Hno2 Hpos) as Hc. cbv zeta in Hc.
  assert ((has_seen (time_check w2) (device_id m) (sequence_id m)
             (message_cache (after r1))).1 = false) as Hs.
  { apply has_seen_false. intros e. rewrite Hst, mark_seen_lookup, cleanup_ttl.
    intros [= <-]. exact Hlate. }
  rewrite Hs in Hc. destruct Hc as [Hr Hc]. fold r2 in Hr, Hc. split.
  - unfold outcome. by rewrite Hr.
  - rewrite Hc, mark_seen_lookup, has_seen_cache, cleanup_ttl, Hst.
    by rewrite mark_seen_ttl, cleanup_ttl.
Qed.

Lemma accepted_again_after_expiry_witness :
  let r1 := ingest_telemetry (message 7) (world_at "a" (100 # 1)) initial_state in
  outcome r1 = Accepted ∧
  outcome (ingest_telemetry (message 7) (world_at "b" (401 # 1)) (after r1))
    = Accepted.
Proof.
  intros r1. split; [reflexivity|].
  destruct (accepted_again_after_expiry (message 7) (world_at "a" (100 # 1))
              (world_at "b" (401 # 1)) initial_state) as [H _].
  - reflexivity.
  - reflexivity.
  - by vm_compute.
  - exact H.
Defined.

End EdgeMore.

(** ** More on the sending device *)

Module DeviceMore.
Import Device DeviceFacts Examples.

Ltac qcmp := unfold Qle, Qlt; cbn; lia.

(** *** The retry loop, attempt by attempt *)

Lemma send_loop_decisive t w attempt rest :
  transient_outcome (post_result (w attempt)) = false →
  send_loop t w (attempt :: rest)
  = ([Log "INFO" "sending_telemetry"; Post t;
      decisive_log (post_result (w attempt))],
     Returned (delivered (post_result (w attempt)))).
Proof.
  intros Htr. cbn [send_loop].
  destruct (post_result (w attempt)) as [code body|[| |name]]; cbn in Htr;
    try done.
  unfold decisive_log, delivered.
  destruct (code =? 200) eqn:E200.
  { by destruct (json_get_correlation_id body). }
  destruct (code =? 409) eqn:E409; [done|].
  assert (is_transient_error (Some code) None = false) as ->; [|done].
  apply classification. exact (proj1 (bool_decide_eq_false _) Htr).
Qed.

Lemma send_loop_transient_prefix t w pre rest :
  Forall (λ a, 0 ≤ a < MAX_RETRIES ∧
               transient_outcome (post_result (w a)) = true) pre →
  send_loop t w (pre ++ rest)
  = prefix (flat_map (retry_of t w) pre) (send_loop t w rest).
Proof.
  induction 1 as [|a pre [[Hlo Hhi] Htr] _ IH].
  - cbn [app flat_map]. unfold prefix. cbn [app].
    by destruct (send_loop t w rest).
  - cbn [app flat_map].
    rewrite (send_loop_retry t w a _ _ Htr Hhi
               (calculate_backoff_eq a _ ltac:(unfold MAX_RETRIES in Hhi; lia))).
    rewrite IH. unfold prefix. cbn [fst snd]. by rewrite app_assoc.
Qed.

Lemma count_retries p t w pre :
  (p = is_post ∨ p = is_sleep) →
  count p (flat_map (retry_of t w) pre) = length pre.
Proof.
  intros Hp. induction pre as [|a pre IH]; [done|].
  cbn [flat_map length]. rewrite count_app, IH.
  by destruct Hp as [-> | ->].
Qed.

Lemma retries_are_send_effects t w pre :
  Forall (send_effect t) (flat_map (retry_of t w) pre).
Proof.
  induction pre as [|a pre IH]; [by constructor|].
  cbn [flat_map]. apply Forall_app. split; [|done].
  by repeat constructor.
Qed.

Lemma sleeps_of_retries t w pre :
  filter (λ e, is_sleep e = true) (flat_map (retry_of t w) pre)
  = (λ a, Sleep (jittered_backoff a (backoff_sample (w a)))) <$> pre.
Proof.
  induction pre as [|a pre IH]; [done|]. cbn [flat_map fmap list_fmap].
  by rewrite filter_app, IH.
Qed.

(** The attempts before the [k]-th. *)
Lemma range_split (k : nat) :
  (k ≤ 5)%nat →
  range (MAX_RETRIES + 1)
  = seqZ 0 (Z.of_nat k) ++ Z.of_nat k :: seqZ (Z.of_nat k + 1) (5 - Z.of_nat k).
Proof.
  intros Hk.
  assert (k = 0 ∨ k = 1 ∨ k = 2 ∨ k = 3 ∨ k = 4 ∨ k = 5)%nat
    as [-> | [-> | [-> | [-> | [-> | ->]]]]] by lia; reflexivity.
Qed.

Lemma attempts_before (k : nat) a :
  a ∈ seqZ 0 (Z.of_nat k) ↔ 0 ≤ a < Z.of_nat k.
Proof.
  rewrite list_elem_of_lookup. split.
  - intros [i Hi]. apply lookup_seqZ in Hi. lia.
  - intros Ha. exists (Z.to_nat a). apply lookup_seqZ. lia.
Qed.

Lemma stops_at (t : Telemetry) (w : Z → AttemptWorld) (k : nat) :
  (k ≤ 5)%nat →
  (∀ a, 0 ≤ a < Z.of_nat k → transient_outcome (post_result (w a)) = true) →
  transient_outcome (post_result (w (Z.of_nat k))) = false →
  send_with_retry t w
  = (flat_map (retry_of t w) (seqZ 0 (Z.of_nat k))
     ++ [Log "INFO" "sending_telemetry"; Post t;
         decisive_log (post_result (w (Z.of_nat k)))],
     Returned (delivered (post_result (w (Z.of_nat k))))).
Proof.
  intros Hk Hbefore Hat. unfold send_with_retry.
  rewrite (range_split k Hk), send_loop_transient_prefix.
  - by rewrite (send_loop_decisive _ _ _ _ Hat).
  - apply Forall_forall. intros a Ha. apply attempts_before in Ha.
    unfold MAX_RETRIES. split; [lia|]. by apply Hbefore.
Qed.

Lemma exhausts (t : Telemetry) (w : Z → AttemptWorld) :
  (∀ a, 0 ≤ a ≤ 5 → transient_outcome (post_result (w a)) = true) →
  send_with_retry t w
  = (flat_map (retry_of t w) (seqZ 0 5) ++ last_effects t (post_result (w 5)),
     Returned false).
Proof.
  intros Hall. unfold send_with_retry.
  rewrite (range_split 5 ltac:(lia)), send_loop_transient_prefix.
  - by rewrite (send_loop_exhausted t w _ _ (Hall 5 ltac:(lia)) ltac:(done)).
  - apply Forall_forall. intros a Ha. apply (attempts_before 5) in Ha.
    unfold MAX_RETRIES. split; [lia|]. apply Hall. lia.
Qed.

(** Either some attempt is the first that is not retried, or all six are
    transient. *)
Lemma first_decisive (w : Z → AttemptWorld) :
  (∃ k : nat, (k ≤ 5)%nat ∧
     (∀ a, 0 ≤ a < Z.of_nat k → transient_outcome (post_result (w a)) = true) ∧
     transient_outcome (post_result (w (Z.of_nat k))) = false) ∨
  (∀ a, 0 ≤ a ≤ 5 → transient_outcome (post_result (w a)) = true).
Proof.
  assert (∀ n : nat,
    (∃ k : nat, (k < n)%nat ∧
       (∀ a, 0 ≤ a < Z.of_nat k → transient_outcome (post_result (w a)) = true) ∧
       transient_outcome (post_result (w (Z.of_nat k))) = false) ∨
    (∀ a, 0 ≤ a < Z.of_nat n → transient_outcome (post_result (w a)) = true))
    as Hn.
  { induction n as [|n [(k & Hk & Hb & Hd)|Hall]].
    - right. intros a Ha. lia.
    - left. exists k. split; [lia|done].
    - destruct (transient_outcome (post_result (w (Z.of_nat n)))) eqn:E.
      + right. intros a Ha.
        destruct (decide (a = Z.of_nat n)) as [->|]; [done|]. apply Hall. lia.
      + left. exists n. split; [lia|done]. }
  destruct (Hn 6%nat) as [(k & Hk & Hb & Hd)|Hall].
  - left. exists k. split; [lia|done].
  - right. intros a Ha. apply Hall. lia.
Qed.

(** X8. [send_with_retry] stops at the first attempt whose result is not
    transient: after k retried attempts it has transmitted k + 1 times and
    slept k times, and it returns True exactly when that attempt was
    answered 409, or 200 with a body that yields the correlation id. *)
Theorem stops_at_first_decisive_attempt
    (t : Telemetry) (w : Z → AttemptWorld) (k : nat) :
  (k ≤ 5)%nat →
  (∀ a, 0 ≤ a < Z.of_nat k → transient_outcome (post_result (w a)) = true) →
  transient_outcome (post_result (w (Z.of_nat k))) = false →
  let out := send_with_retry t w in
  out.2 = Returned (delivered (post_result (w (Z.of_nat k)))) ∧
  count is_post out.1 = S k ∧
  count is_sleep out.1 = k ∧
  filter (λ e, is_sleep e = true) out.1
    = (λ a, Sleep (jittered_backoff a (backoff_sample (w a))))
        <$> seqZ 0 (Z.of_nat k).
Proof.
  intros Hk Hb Hd out. subst out. rewrite (stops_at t w k Hk Hb Hd).
  cbn [fst snd]. split; [done|].
  rewrite !count_app, !count_retries by auto.
  rewrite length_seqZ, Nat2Z.id.
  assert (is_post (decisive_log (post_result (w (Z.of_nat k)))) = false
          ∧ is_sleep (decisive_log (post_result (w (Z.of_nat k)))) = false)
    as [Hp Hs].
  { unfold decisive_log.
    destruct (post_result (w (Z.of_nat k))) as [code body|e]; [|done].
    destruct (code =? 200); [by destruct (json_get_correlation_id body)|].
    by destruct (code =? 409). }
  rewrite !count_cons, Hp, Hs, count_nil. cbn.
  split; [lia|]. split; [lia|].
  rewrite filter_app, sleeps_of_retries.
  rewrite !filter_cons_False, filter_nil, app_nil_r; [done|..]; cbn;
    rewrite ?Hs; done.
Qed.

Lemma stops_at_first_decisive_attempt_witness :
  let out := send_with_retry (generate_telemetry 0 readings0) overloaded_once in
  transient_outcome (post_result (overloaded_once 1)) = false ∧
  out.2 = Returned true ∧ count is_post out.1 = 2%nat ∧
  count is_sleep out.1 = 1%nat.
Proof.
  intros out. split; [reflexivity|].
  destruct (stops_at_first_decisive_attempt (generate_telemetry 0 readings0)
              overloaded_once 1) as (H1 & H2 & H3 & _).
  - lia.
  - intros a Ha. assert (a = 0) as -> by lia. reflexivity.
  - reflexivity.
  - split; [exact H1|]. split; [exact H2 | exact H3].
Defined.

Lemma decisive_log_silent r :
  is_post (decisive_log r) = false ∧ is_sleep (decisive_log r) = false ∧
  send_effect (generate_telemetry 0 readings0) (decisive_log r).
Proof.
  unfold decisive_log. destruct r as [code body|e]; [|done].
  destruct (code =? 200); [by destruct (json_get_correlation_id body)|].
  by destruct (code =? 409).
Qed.

(** X9. Whatever the network does, [send_with_retry] returns (no
    exception escapes it), after at least one and at most MAX_RETRIES + 1
    transmissions, all of the telemetry it was given, and with one sleep
    fewer than transmissions. *)
Theorem send_with_retry_is_bounded (t : Telemetry) (w : Z → AttemptWorld) :
  let out := send_with_retry t w in
  (∃ b, out.2 = Returned b) ∧
  (1 ≤ count is_post out.1 ≤ Z.to_nat (MAX_RETRIES + 1))%nat ∧
  (count is_sleep out.1 + 1 = count is_post out.1)%nat ∧
  (∀ e, e ∈ out.1 → is_post e = true → e = Post t).
Proof.
  intros out. change (Z.to_nat (MAX_RETRIES + 1)) with 6%nat.
  assert (∀ e, e ∈ out.1 → is_post e = true → e = Post t) as Hposts.
  { intros e. apply send_effect_posts. apply send_loop_effects. }
  subst out. destruct (first_decisive w) as [(k & Hk & Hb & Hd)|Hall].
  - rewrite (stops_at t w k Hk Hb Hd) in *. cbn [fst snd] in *.
    destruct (decisive_log_silent (post_result (w (Z.of_nat k))))
      as (Hp & Hs & _).
    rewrite !count_app, !count_retries, length_seqZ, Nat2Z.id by auto.
    rewrite !count_cons, Hp, Hs, count_nil. cbn.
    split; [eauto|]. split; [lia|]. split; [lia|done].
  - rewrite (exhausts t w Hall) in *. cbn [fst snd] in *.
    rewrite !count_app, !count_retries by auto.
    unfold last_effects. rewrite !count_cons, count_nil. cbn.
    change (length (seqZ 0 5)) with 5%nat.
    split; [eauto|]. split; [lia|]. split; [lia|done].
Qed.

Lemma delivered_not_transient r :
  delivered r = true → transient_outcome r = false.
Proof.
  destruct r as [code body|e]; [|done]. cbn.
  destruct (code =? 200) eqn:E200.
  - apply Z.eqb_eq in E200 as ->. done.
  - intros E409. apply Z.eqb_eq in E409 as ->. done.
Qed.

(** X10. [send_with_retry] returns True if and only if some attempt among
    the MAX_RETRIES + 1 is answered 409, or 200 with a body that yields the
    correlation id, and every attempt before it met a transient result. *)
Theorem returns_true_iff_delivered (t : Telemetry) (w : Z → AttemptWorld) :
  (send_with_retry t w).2 = Returned true ↔
  ∃ k : nat, (k ≤ 5)%nat ∧
    (∀ a, 0 ≤ a < Z.of_nat k → transient_outcome (post_result (w a)) = true) ∧
    delivered (post_result (w (Z.of_nat k))) = true.
Proof.
  split.
  - intros Hret. destruct (first_decisive w) as [(k & Hk & Hb & Hd)|Hall].
    + rewrite (stops_at t w k Hk Hb Hd) in Hret. cbn [snd] in Hret.
      exists k. split; [done|]. split; [done|]. congruence.
    + rewrite (exhausts t w Hall) in Hret. done.
  - intros (k & Hk & Hb & Hd).
    rewrite (stops_at t w k Hk Hb (delivered_not_transient _ Hd)).
    cbn [snd]. by rewrite Hd.
Qed.

(** *** Time spent backing off *)

Lemma jittered_backoff_uncapped a u :
  0 ≤ a ≤ 4 →
  (- (1 # 2) <= u)%Q → (u <= 1 # 2)%Q →
  ((1 # 2) * inject_Z (2 ^ a) <= jittered_backoff a u)%Q ∧
  (jittered_backoff a u <= (3 # 2) * inject_Z (2 ^ a))%Q ∧
  (jittered_backoff a u == inject_Z (2 ^ a) + inject_Z (2 ^ a) * u)%Q.
Proof.
  intros Ha Hu1 Hu2. unfold jittered_backoff, capped_backoff.
  unfold BASE_BACKOFF_SECONDS, MAX_BACKOFF_SECONDS.
  assert (1 <= inject_Z (2 ^ a) ∧ inject_Z (2 ^ a) <= 16)%Q as [Hx1 Hx2].
  { assert (1 ≤ 2 ^ a) as H1 by (apply (Z.pow_le_mono_r 2 0); lia).
    assert (2 ^ a ≤ 2 ^ 4) as H2 by (apply Z.pow_le_mono_r; lia).
    rewrite Zle_Qle in H1, H2. split; [exact H1 | exact H2]. }
  set (x := inject_Z (2 ^ a)) in *.
  assert (py_min (1 * x) 30 == x)%Q as Hmin.
  { unfold py_min. destruct (Qltb 30 (1 * x)) eqn:E.
    - apply Qltb_true in E. lra.
    - lra. }
  set (b := py_min (1 * x) 30) in *.
  assert (b * (1 # 2) <= b + b * u ∧ b + b * u <= b * (3 # 2))%Q as [Hs1 Hs2].
  { assert (0 <= b)%Q by lra. split; nra. }
  unfold py_max. destruct (Qltb (1 # 10) (b + b * u)) eqn:E.
  - split; [lra|]. split; [lra|]. rewrite Hmin. reflexivity.
  - apply Qltb_false in E. lra.
Qed.

Lemma total_sleep_cons e tr :
  total_sleep (e :: tr)
  = match e with Sleep d => (d + total_sleep tr)%Q | _ => total_sleep tr end.
Proof. reflexivity. Qed.

Lemma total_sleep_app tr1 tr2 :
  (total_sleep (tr1 ++ tr2) == total_sleep tr1 + total_sleep tr2)%Q.
Proof.
  induction tr1 as [|e tr1 IH].
  - cbn [app]. change (total_sleep []) with 0%Q. lra.
  - rewrite <- app_comm_cons, !total_sleep_cons. destruct e; lra.
Qed.

Lemma total_sleep_retries t w (k : nat) :
  (k ≤ 5)%nat →
  (∀ a, 0 ≤ a ≤ 4 →
     (- (1 # 2) <= backoff_sample (w a))%Q ∧ (backoff_sample (w a) <= 1 # 2)%Q) →
  (total_sleep (flat_map (retry_of t w) (seqZ 0 (Z.of_nat k))) <= 465 # 10)%Q.
Proof.
  intros Hk Hu.
  pose proof (λ a Ha, jittered_backoff_uncapped a (backoff_sample (w a)) Ha
                        (proj1 (Hu a Ha)) (proj2 (Hu a Ha))) as Hj.
  destruct (Hj 0 ltac:(lia)) as (L0 & U0 & _).
  destruct (Hj 1 ltac:(lia)) as (L1 & U1 & _).
  destruct (Hj 2 ltac:(lia)) as (L2 & U2 & _).
  destruct (Hj 3 ltac:(lia)) as (L3 & U3 & _).
  destruct (Hj 4 ltac:(lia)) as (L4 & U4 & _).
  change (inject_Z (2 ^ 0)) with (1 # 1)%Q in *.
  change (inject_Z (2 ^ 1)) with (2 # 1)%Q in *.
  change (inject_Z (2 ^ 2)) with (4 # 1)%Q in *.
  change (inject_Z (2 ^ 3)) with (8 # 1)%Q in *.
  change (inject_Z (2 ^ 4)) with (16 # 1)%Q in *.
  assert (k = 0 ∨ k = 1 ∨ k = 2 ∨ k = 3 ∨ k = 4 ∨ k = 5)%nat
    as [-> | [-> | [-> | [-> | [-> | ->]]]]] by lia;
    [ change (seqZ 0 (Z.of_nat 0)) with (@nil Z)
    | change (seqZ 0 (Z.of_nat 1)) with [0]
    | change (seqZ 0 (Z.of_nat 2)) with [0; 1]
    | change (seqZ 0 (Z.of_nat 3)) with [0; 1; 2]
    | change (seqZ 0 (Z.of_nat 4)) with [0; 1; 2; 3]
    | change (seqZ 0 (Z.of_nat 5)) with [0; 1; 2; 3; 4] ];
    cbn [flat_map retry_of retry_effects app];
    rewrite ?total_sleep_cons; change (total_sleep []) with 0%Q; lra.
Qed.

(** X11. With every jitter sample within plus or minus one half, a call
    of [send_with_retry] sleeps at most 46.5 seconds in all, and each of
    its sleeps lasts between half a second and 24 seconds: the cap of 30
    seconds is never reached in the five retries. *)
Theorem backoff_budget (t : Telemetry) (w : Z → AttemptWorld) :
  (∀ a, 0 ≤ a ≤ 4 →
     (- (1 # 2) <= backoff_sample (w a))%Q ∧ (backoff_sample (w a) <= 1 # 2)%Q) →
  let out := send_with_retry t w in
  (total_sleep out.1 <= 465 # 10)%Q ∧
  (∀ d, Sleep d ∈ out.1 → (1 # 2 <= d)%Q ∧ (d <= 24)%Q).
Proof.
  intros Hu out.
  assert (∃ (k : nat) fin, (k ≤ 5)%nat ∧
            out.1 = flat_map (retry_of t w) (seqZ 0 (Z.of_nat k)) ++ fin ∧
            total_sleep fin = 0%Q ∧
            filter (λ e, is_sleep e = true) fin = [])
    as (k & fin & Hk & Eout & Hfin & Hnone).
  { subst out. destruct (first_decisive w) as [(k & Hk & Hb & Hd)|Hall].
    - exists k. eexists. split; [done|].
      rewrite (stops_at t w k Hk Hb Hd). cbn [fst]. split; [done|].
      destruct (decisive_log_silent (post_result (w (Z.of_nat k))))
        as (_ & Hs & _).
      split.
      + rewrite !total_sleep_cons. by destruct (decisive_log _).
      + rewrite !filter_cons_False, filter_nil; cbn; rewrite ?Hs; done.
    - exists 5%nat. eexists. split; [done|].
      rewrite (exhausts t w Hall). cbn [fst]. split; [done|]. done. }
  rewrite Eout. split.
  - rewrite total_sleep_app, Hfin.
    pose proof (total_sleep_retries t w k Hk Hu). lra.
  - intros d Hd.
    assert (Sleep d ∈ filter (λ e, is_sleep e = true)
              (flat_map (retry_of t w) (seqZ 0 (Z.of_nat k)) ++ fin)) as Hin.
    { by apply list_elem_of_filter. }
    rewrite filter_app, Hnone, app_nil_r, sleeps_of_retries in Hin.
    apply list_elem_of_fmap in Hin as (a & [= ->] & Ha).
    apply attempts_before in Ha.
    destruct (jittered_backoff_uncapped a (backoff_sample (w a)))
      as (Hlo & Hhi & _); [lia|apply Hu; lia..|].
    assert (1 <= inject_Z (2 ^ a) ∧ inject_Z (2 ^ a) <= 16)%Q as [Hx1 Hx2].
    { assert (1 ≤ 2 ^ a) as H1 by (apply (Z.pow_le_mono_r 2 0); lia).
      assert (2 ^ a ≤ 2 ^ 4) as H2 by (apply Z.pow_le_mono_r; lia).
      rewrite Zle_Qle in H1, H2. split; [exact H1 | exact H2]. }
    split; lra.
Qed.

Lemma backoff_budget_witness :
  let out := send_with_retry (generate_telemetry 0 readings0)
               (always (Responded 503 NotJson)) in
  (- (1 # 2) <= backoff_sample (always (Responded 503 NotJson) 0))%Q ∧
  (total_sleep out.1 <= 465 # 10)%Q.
Proof.
  intros out. split; [qcmp|].
  destruct (backoff_budget (generate_telemetry 0 readings0)
              (always (Responded 503 NotJson))) as [H _].
  - intros a _. split; qcmp.
  - exact H.
Defined.

(** *** The backoff formula *)

Lemma py_min_mono x1 x2 c : (x1 <= x2)%Q → (py_min x1 c <= py_min x2 c)%Q.
Proof.
  intros Hx. unfold py_min.
  destruct (Qltb c x1) eqn:E1, (Qltb c x2) eqn:E2;
    rewrite ?Qltb_true, ?Qltb_false in *; lra.
Qed.

Lemma py_max_mono c y1 y2 : (y1 <= y2)%Q → (py_max c y1 <= py_max c y2)%Q.
Proof.
  intros Hy. unfold py_max.
  destruct (Qltb c y1) eqn:E1, (Qltb c y2) eqn:E2;
    rewrite ?Qltb_true, ?Qltb_false in *; lra.
Qed.

Lemma capped_backoff_bounds a :
  0 ≤ a → (1 <= capped_backoff a)%Q ∧ (capped_backoff a <= 30)%Q.
Proof.
  intros Ha. unfold capped_backoff, BASE_BACKOFF_SECONDS, MAX_BACKOFF_SECONDS.
  assert (1 <= inject_Z (2 ^ a))%Q as Hx.
  { assert (1 ≤ 2 ^ a) as H1 by (apply (Z.pow_le_mono_r 2 0); lia).
    by rewrite Zle_Qle in H1. }
  unfold py_min. destruct (Qltb 30 (1 * inject_Z (2 ^ a))) eqn:E.
  - split; by vm_compute.
  - apply Qltb_false in E. split; lra.
Qed.

(** X12. For a fixed jitter sample of at least -1, the delay of
    [calculate_backoff] never decreases as the attempt number grows
    (attempts 0 to 1023). *)
Theorem calculate_backoff_monotone (a1 a2 : Z) (u : Q) :
  0 ≤ a1 → a1 ≤ a2 → a2 ≤ 1023 → (- (1) <= u)%Q →
  ∃ d1 d2, calculate_backoff a1 u = Some d1 ∧
           calculate_backoff a2 u = Some d2 ∧ (d1 <= d2)%Q.
Proof.
  intros H0 H12 Hhi Hu.
  exists (jittered_backoff a1 u), (jittered_backoff a2 u).
  split; [apply calculate_backoff_eq; lia|].
  split; [apply calculate_backoff_eq; lia|].
  unfold jittered_backoff. apply py_max_mono.
  assert (capped_backoff a1 <= capped_backoff a2)%Q as Hc.
  { unfold capped_backoff, BASE_BACKOFF_SECONDS. apply py_min_mono.
    assert (2 ^ a1 ≤ 2 ^ a2) as Hp by (apply Z.pow_le_mono_r; lia).
    rewrite Zle_Qle in Hp. lra. }
  destruct (capped_backoff_bounds a1 H0) as [? _].
  nra.
Qed.

Lemma calculate_backoff_monotone_witness :
  0 ≤ 2 ∧ 2 ≤ 7 ∧
  ∃ d1 d2, calculate_backoff 2 (1 # 4) = Some d1 ∧
           calculate_backoff 7 (1 # 4) = Some d2 ∧ (d1 <= d2)%Q.
Proof.
  split; [lia|]. split; [lia|].
  apply (calculate_backoff_monotone 2 7 (1 # 4)); [lia | lia | lia | qcmp].
Defined.

(** X13. For a non-negative attempt and a jitter sample within plus or
    minus one half the floor of 0.1 is never what is returned: the delay
    is the capped value plus its jitter and is at least half a second;
    from attempt 5 on the cap of 30 seconds applies and the delay is
    30 + 30 * sample, whatever the attempt. *)
Theorem backoff_floor_unused_and_cap_reached (attempt : Z) (u : Q) :
  0 ≤ attempt → attempt ≤ 1023 →
  (- (1 # 2) <= u)%Q → (u <= 1 # 2)%Q →
  ∃ delay, calculate_backoff attempt u = Some delay ∧
    (delay == capped_backoff attempt + capped_backoff attempt * u)%Q ∧
    (1 # 2 <= delay)%Q ∧
    (5 ≤ attempt → (delay == 30 + 30 * u)%Q) ∧
    (attempt ≤ 4 →
     (delay == inject_Z (2 ^ attempt) + inject_Z (2 ^ attempt) * u)%Q).
Proof.
  intros Hlo Hhi Hu1 Hu2. exists (jittered_backoff attempt u).
  split; [apply calculate_backoff_eq; lia|].
  destruct (capped_backoff_bounds attempt Hlo) as [Hb1 Hb2].
  assert (jittered_backoff attempt u
          == capped_backoff attempt + capped_backoff attempt * u)%Q as Hj.
  { unfold jittered_backoff, py_max.
    destruct (Qltb (1 # 10) _) eqn:E; [reflexivity|].
    apply Qltb_false in E. nra. }
  split; [exact Hj|]. split; [rewrite Hj; nra|]. split.
  - intros H5. rewrite Hj.
    assert (capped_backoff attempt == 30)%Q as ->; [|reflexivity].
    unfold capped_backoff, BASE_BACKOFF_SECONDS, MAX_BACKOFF_SECONDS, py_min.
    assert (2 ^ 5 ≤ 2 ^ attempt) as Hp by (apply Z.pow_le_mono_r; lia).
    rewrite Zle_Qle in Hp. change (inject_Z (2 ^ 5)) with (32 # 1)%Q in Hp.
    destruct (Qltb 30 (1 * inject_Z (2 ^ attempt))) eqn:E; [reflexivity|].
    apply Qltb_false in E. lra.
  - intros H4. by apply jittered_backoff_uncapped.
Qed.

Lemma backoff_floor_unused_and_cap_reached_witness :
  0 ≤ 9 ∧ ∃ delay, calculate_backoff 9 (- (1 # 2)) = Some delay ∧
                   (delay == 15)%Q.
Proof.
  split; [lia|].
  destruct (backoff_floor_unused_and_cap_reached 9 (- (1 # 2)))
    as (delay & Hd & _ & _ & H5 & _); [lia | lia | qcmp | qcmp |].
  exists delay. split; [exact Hd|]. rewrite H5 by lia. reflexivity.
Defined.

(** X14. For an attempt from -1074 to -4, where [2 ** attempt] is the
    float two to that power, and a jitter sample within plus or minus one
    half, the floor applies: the delay is exactly 0.1. *)
Theorem backoff_floor_for_negative_attempts (attempt : Z) (u : Q) :
  -1074 ≤ attempt → attempt ≤ -4 →
  (- (1 # 2) <= u)%Q → (u <= 1 # 2)%Q →
  calculate_backoff attempt u = Some (1 # 10).
Proof.
  intros _ Hneg Hu1 Hu2. unfold calculate_backoff, pow2.
  rewrite (proj2 (Z.leb_gt _ _)) by lia. cbn [base_times mbind option_bind].
  unfold BASE_BACKOFF_SECONDS, MAX_BACKOFF_SECONDS.
  assert (0 < 2 ^ attempt)%Q as Hpos by (by apply Qpower_0_lt).
  assert (2 ^ attempt <= 1 # 16)%Q as Hsmall.
  { pose proof (Qpower_le_compat_l 2 attempt (-4) Hneg ltac:(qcmp)) as H.
    change (2 ^ (-4))%Q with (/ 16)%Q in H.
    assert (/ 16 == 1 # 16)%Q by reflexivity. lra. }
  set (x := (2 ^ attempt)%Q) in *.
  assert (py_min (1 * x) 30 == 1 * x)%Q as Hmin.
  { unfold py_min. destruct (Qltb 30 (1 * x)) eqn:E; [|reflexivity].
    apply Qltb_true in E. lra. }
  unfold py_max.
  assert (Qltb (1 # 10) (py_min (1 * x) 30 + py_min (1 * x) 30 * u) = false)
    as ->; [|done].
  apply Qltb_false. rewrite Hmin. nra.
Qed.

Lemma backoff_floor_for_negative_attempts_witness :
  -5 ≤ -4 ∧ calculate_backoff (-5) (1 # 2) = Some (1 # 10).
Proof.
  split; [lia|].
  apply backoff_floor_for_negative_attempts; [lia | lia | qcmp | qcmp].
Defined.

(** *** The helper and the handlers agree *)

Lemma transient_outcome_spec r :
  transient_outcome r
  = is_transient_error (observed_status r) (observed_exception r).
Proof.
  destruct r as [code body|[| |name]]; try reflexivity.
  cbn [transient_outcome observed_status observed_exception].
  destruct (bool_decide (code ∈ [429; 503; 504])) eqn:E.
  - symmetry. by apply transient_status.
  - symmetry. apply classification. exact (proj1 (bool_decide_eq_false _) E).
Qed.

Lemma posts_when_stopped t w (k : nat) :
  (k ≤ 5)%nat →
  (∀ a, 0 ≤ a < Z.of_nat k → transient_outcome (post_result (w a)) = true) →
  transient_outcome (post_result (w (Z.of_nat k))) = false →
  count is_post (send_with_retry t w).1 = S k.
Proof.
  intros Hk Hb Hd. rewrite (stops_at t w k Hk Hb Hd). cbn [fst].
  destruct (decisive_log_silent (post_result (w (Z.of_nat k)))) as (Hp & _).
  rewrite !count_app, !count_retries, length_seqZ, Nat2Z.id by auto.
  rewrite !count_cons, Hp, count_nil. cbn. lia.
Qed.

Lemma posts_when_exhausted t w :
  (∀ a, 0 ≤ a ≤ 5 → transient_outcome (post_result (w a)) = true) →
  count is_post (send_with_retry t w).1 = 6%nat.
Proof.
  intros Hall. rewrite (exhausts t w Hall). cbn [fst].
  rewrite !count_app, !count_retries by auto. reflexivity.
Qed.

(** X15. [send_with_retry] transmits a second time exactly when
    [is_transient_error], given the status code or the exception of the
    first attempt, says the error is transient: the three [except]
    handlers and the status branches agree with the helper, also on the
    exceptions it is never called with. *)
Theorem retried_iff_is_transient_error
    (t : Telemetry) (w : Z → AttemptWorld) :
  let r := post_result (w 0) in
  (2 ≤ count is_post (send_with_retry t w).1)%nat ↔
  is_transient_error (observed_status r) (observed_exception r) = true.
Proof.
  intros r. subst r. rewrite <- transient_outcome_spec.
  destruct (first_decisive w) as [(k & Hk & Hb & Hd)|Hall].
  - rewrite (posts_when_stopped t w k Hk Hb Hd).
    destruct k as [|k].
    + change (Z.of_nat 0) with 0 in Hd. rewrite Hd. split; [lia|done].
    + rewrite (Hb 0) by lia. split; [done|lia].
  - rewrite (posts_when_exhausted t w Hall), (Hall 0) by lia.
    split; [done|lia].
Qed.

(** *** The main loop *)

Lemma send_with_retry_returns t w : ∃ b, (send_with_retry t w).2 = Returned b.
Proof.
  destruct (first_decisive w) as [(k & Hk & Hb & Hd)|Hall].
  - rewrite (stops_at t w k Hk Hb Hd). eauto.
  - rewrite (exhausts t w Hall). eauto.
Qed.

Lemma posts_at_most_six t w :
  (1 ≤ count is_post (send_with_retry t w).1 ≤ 6)%nat.
Proof.
  destruct (first_decisive w) as [(k & Hk & Hb & Hd)|Hall].
  - rewrite (posts_when_stopped t w k Hk Hb Hd). lia.
  - rewrite (posts_when_exhausted t w Hall). lia.
Qed.

Lemma main_cycle_trace sequence_id w :
  let t := generate_telemetry sequence_id (readings w) in
  Qltb (drop_sample w) PACKET_DROP_PROBABILITY = false →
  (main_cycle sequence_id w).1
  = [Decide Drop false]
    ++ simulate_jitter (jitter_sample w) (jitter_delay w)
    ++ (send_with_retry t (first_send w)).1
    ++ (simulate_duplicate (duplicate_sample w)).1
    ++ (if (simulate_duplicate (duplicate_sample w)).2
        then [Sleep (1 # 2)] ++ (send_with_retry t (second_send w)).1
             ++ [Sleep TELEMETRY_INTERVAL_SECONDS]
        else [Sleep TELEMETRY_INTERVAL_SECONDS]) ∧
  (main_cycle sequence_id w).2 = inr (sequence_id + 1).
Proof.
  intros t Hdrop.
  destruct (send_with_retry_returns t (first_send w)) as [b1 H1].
  destruct (send_with_retry_returns t (second_send w)) as [b2 H2].
  split.
  - rewrite (main_cycle_sent sequence_id w b1 Hdrop H1). fold t.
    by rewrite H2.
  - unfold main_cycle, simulate_packet_drop. rewrite Hdrop. fold t.
    destruct (send_with_retry t (first_send w)) as [e1 r1].
    destruct (send_with_retry t (second_send w)) as [e2 r2].
    cbn [snd] in *. subst r1 r2.
    by destruct (simulate_duplicate (duplicate_sample w)) as [e_dup []].
Qed.

Lemma main_cycle_continues sequence_id w :
  (main_cycle sequence_id w).2 = inr (sequence_id + 1).
Proof.
  destruct (Qltb (drop_sample w) PACKET_DROP_PROBABILITY) eqn:Hdrop.
  - by rewrite (main_cycle_dropped _ _ Hdrop).
  - by apply main_cycle_trace.
Qed.

Lemma count_posts_jitter r delay : count is_post (simulate_jitter r delay) = 0%nat.
Proof. unfold simulate_jitter. by destruct (Qltb r JITTER_PROBABILITY). Qed.

Lemma count_posts_duplicate r :
  count is_post (simulate_duplicate r).1 = 0%nat.
Proof. unfold simulate_duplicate. by destruct (Qltb r DUPLICATE_PROBABILITY). Qed.

Lemma send_effect_cycle_effect t tr :
  Forall (send_effect t) tr → Forall (cycle_effect t) tr.
Proof. intros H. eapply Forall_impl; [exact H|]. by intros []. Qed.

Lemma main_cycle_effects sequence_id w :
  Forall (cycle_effect (generate_telemetry sequence_id (readings w)))
         (main_cycle sequence_id w).1.
Proof.
  set (t := generate_telemetry sequence_id (readings w)).
  destruct (Qltb (drop_sample w) PACKET_DROP_PROBABILITY) eqn:Hdrop.
  - rewrite (main_cycle_dropped _ _ Hdrop). by repeat constructor.
  - destruct (main_cycle_trace sequence_id w Hdrop) as [-> _]. fold t.
    pose proof (send_effect_cycle_effect t _
                  (send_loop_effects t (first_send w) (range (MAX_RETRIES + 1))))
      as H1.
    pose proof (send_effect_cycle_effect t _
                  (send_loop_effects t (second_send w) (range (MAX_RETRIES + 1))))
      as H2.
    fold (send_with_retry t (first_send w)) in H1.
    fold (send_with_retry t (second_send w)) in H2.
    generalize dependent (send_with_retry t (second_send w)).
    generalize dependent (send_with_retry t (first_send w)).
    intros s1 H1 s2 H2. clearbody t.
    assert (Forall (cycle_effect t)
              (simulate_jitter (jitter_sample w) (jitter_delay w))) as Hj.
    { unfold simulate_jitter.
      destruct (Qltb (jitter_sample w) JITTER_PROBABILITY); by repeat constructor. }
    assert (Forall (cycle_effect t) (simulate_duplicate (duplicate_sample w)).1)
      as Hd.
    { unfold simulate_duplicate.
      destruct (Qltb (duplicate_sample w) DUPLICATE_PROBABILITY);
        by repeat constructor. }
    generalize dependent (simulate_jitter (jitter_sample w) (jitter_delay w)).
    generalize dependent (simulate_duplicate (duplicate_sample w)).
    intros dup Hd jit Hj.
    apply Forall_app. split; [by repeat constructor|].
    apply Forall_app. split; [done|].
    apply Forall_app. split; [done|].
    apply Forall_app. split; [done|].
    destruct dup.2.
    + apply Forall_app. split; [by repeat constructor|].
      apply Forall_app. split; [done|]. by repeat constructor.
    + by repeat constructor.
Qed.

Lemma main_cycle_post sequence_id w e :
  e ∈ (main_cycle sequence_id w).1 → is_post e = true →
  e = Post (generate_telemetry sequence_id (readings w)).
Proof.
  intros He Hp.
  pose proof (proj1 (Forall_forall _ _) (main_cycle_effects sequence_id w) e He)
    as H.
  destruct e; try done. cbn in H. by subst.
Qed.

(** X16. [main] never stops on an error of a send and numbers its cycles:
    the trace of a run is the trace of its first cycle followed by the run
    of the others from the next sequence number, whatever happened in the
    cycle; so every transmission of a run of n cycles carries the
    device's identifier and a sequence number from 0 to n - 1. *)
Theorem main_numbers_its_cycles (cycles : list CycleWorld) :
  (∀ s w rest,
     main_from s (w :: rest) = (main_cycle s w).1 ++ main_from (s + 1) rest) ∧
  (∀ t, Post t ∈ main cycles →
     device_id t = DEVICE_ID ∧
     0 ≤ sequence_id t < Z.of_nat (length cycles)).
Proof.
  assert (∀ s w rest,
     main_from s (w :: rest) = (main_cycle s w).1 ++ main_from (s + 1) rest)
    as Hstep.
  { intros s w rest. cbn [main_from].
    pose proof (main_cycle_continues s w) as Hc.
    destruct (main_cycle s w) as [es next]. cbn [fst snd] in *. by subst next. }
  split; [exact Hstep|].
  assert (∀ l s t, Post t ∈ main_from s l →
            device_id t = DEVICE_ID ∧
            s ≤ sequence_id t < s + Z.of_nat (length l)) as Hfrom.
  { induction l as [|w l IH]; intros s t Ht.
    - by apply elem_of_nil in Ht.
    - rewrite Hstep in Ht. apply elem_of_app in Ht as [Ht|Ht].
      + apply main_cycle_post in Ht; [|done]. injection Ht as ->.
        cbn [length generate_telemetry device_id sequence_id]. split; [done|lia].
      + apply IH in Ht. cbn [length]. split; [tauto|lia]. }
  intros t Ht. unfold main in Ht. apply elem_of_cons in Ht as [Ht|Ht]; [done|].
  apply Hfrom in Ht as [Hd Hs]. split; [done|lia].
Qed.

(** X17. A cycle transmits nothing when the packet is dropped, and
    otherwise between one and 2 * (MAX_RETRIES + 1) times, always the
    telemetry generated for the cycle; either way the next cycle gets the
    next sequence number. *)
Theorem cycle_transmissions (sequence_id : Z) (w : CycleWorld) :
  let t := generate_telemetry sequence_id (readings w) in
  let tr := (main_cycle sequence_id w).1 in
  (main_cycle sequence_id w).2 = inr (sequence_id + 1) ∧
  (∀ e, e ∈ tr → is_post e = true → e = Post t) ∧
  if Qltb (drop_sample w) PACKET_DROP_PROBABILITY
  then count is_post tr = 0%nat
  else (1 ≤ count is_post tr ≤ 12)%nat.
Proof.
  intros t tr. split; [apply main_cycle_continues|].
  split; [intros e; apply main_cycle_post|]. subst tr.
  destruct (Qltb (drop_sample w) PACKET_DROP_PROBABILITY) eqn:Hdrop.
  - by rewrite (main_cycle_dropped _ _ Hdrop).
  - destruct (main_cycle_trace sequence_id w Hdrop) as [-> _]. fold t.
    pose proof (posts_at_most_six t (first_send w)) as H1.
    pose proof (posts_at_most_six t (second_send w)) as H2.
    pose proof (count_posts_jitter (jitter_sample w) (jitter_delay w)) as Hj.
    pose proof (count_posts_duplicate (duplicate_sample w)) as Hd.
    generalize dependent (send_with_retry t (second_send w)).
    generalize dependent (send_with_retry t (first_send w)).
    generalize dependent (simulate_jitter (jitter_sample w) (jitter_delay w)).
    generalize dependent (simulate_duplicate (duplicate_sample w)).
    intros dup Hd jit Hj s1 H1 s2 H2.
    rewrite !count_app, Hj, Hd. destruct dup.2.
    + rewrite !count_app, !count_cons, !count_nil. cbn. lia.
    + rewrite !count_cons, !count_nil. cbn. lia.
Qed.

Lemma sleeps_when_stopped t w (k : nat) :
  (k ≤ 5)%nat →
  (∀ a, 0 ≤ a < Z.of_nat k → transient_outcome (post_result (w a)) = true) →
  transient_outcome (post_result (w (Z.of_nat k))) = false →
  count is_sleep (send_with_retry t w).1 = k ∧
  (send_with_retry t w).2 = Returned (delivered (post_result (w (Z.of_nat k)))).
Proof.
  intros Hk Hb Hd. rewrite (stops_at t w k Hk Hb Hd). cbn [fst snd].
  destruct (decisive_log_silent (post_result (w (Z.of_nat k)))) as (_ & Hs & _).
  rewrite !count_app, !count_retries, length_seqZ, Nat2Z.id by auto.
  rewrite !count_cons, Hs, count_nil. cbn. split; [lia|done].
Qed.

Lemma exhausted_result t w :
  (∀ a, 0 ≤ a ≤ 5 → transient_outcome (post_result (w a)) = true) →
  count is_sleep (send_with_retry t w).1 = 5%nat ∧
  (send_with_retry t w).2 = Returned false.
Proof.
  intros Hall. rewrite (exhausts t w Hall). cbn [fst snd].
  rewrite !count_app, !count_retries by auto. split; reflexivity.
Qed.

End DeviceMore.

(** ** Properties of the device talking to the service *)

Module LinkFacts.
Import Link EdgeFacts DeviceFacts DeviceMore Examples.

Ltac qcmp := unfold Qle, Qlt; cbn; lia.

Lemma requests_of_app t ws1 ws2 :
  requests_of t (ws1 ++ ws2) = requests_of t ws1 ++ requests_of t ws2.
Proof. unfold requests_of. apply fmap_app. Qed.

Lemma served_app t ws1 ws2 st :
  served t (ws1 ++ ws2) st
  = ((served t ws1 st).1 ++ (served t ws2 (served t ws1 st).2).1,
     (served t ws2 (served t ws1 st).2).2).
Proof.
  unfold served. rewrite requests_of_app, run_app.
  destruct (Edge.run (requests_of t ws1) st) as [r1 st1]. cbn [fst snd].
  by destruct (Edge.run (requests_of t ws2) st1).
Qed.

Lemma served_cons t w ws st :
  served t (w :: ws) st
  = (Edge.ingest_telemetry (to_message t) w st
       :: (served t ws (Edge.after (Edge.ingest_telemetry (to_message t) w st))).1,
     (served t ws (Edge.after (Edge.ingest_telemetry (to_message t) w st))).2).
Proof. unfold served. cbn [requests_of fmap list_fmap]. apply run_cons. Qed.

(** Requests on which the overload gate fires are all answered 503 and
    move nothing but the received and 503 counters. *)
Lemma served_overloaded t ws st :
  Forall overloaded ws →
  Forall (λ rp, Edge.response rp
                = Edge.HTTPException 503 "Service temporarily overloaded")
         (served t ws st).1 ∧
  length (served t ws st).1 = length ws ∧
  Edge.message_cache (served t ws st).2 = Edge.message_cache st ∧
  Edge.accepted_total (Edge.metrics (served t ws st).2)
    = Edge.accepted_total (Edge.metrics st) ∧
  Edge.duplicates_total (Edge.metrics (served t ws st).2)
    = Edge.duplicates_total (Edge.metrics st) ∧
  Edge.transient_503_total (Edge.metrics (served t ws st).2)
    = Edge.transient_503_total (Edge.metrics st) + Z.of_nat (length ws).
Proof.
  intros Hall. revert st. induction Hall as [|w ws Hw _ IH]; intros st.
  - cbn. repeat split; [by constructor|lia].
  - rewrite served_cons. cbn [fst snd length].
    destruct (ingest_overloaded (to_message t) w st Hw) as [Hr Hc].
    destruct (IH (Edge.after (Edge.ingest_telemetry (to_message t) w st)))
      as (I1 & I2 & I3 & I4 & I5 & I6).
    rewrite I2, I3, I4, I5, I6, Hc.
    assert (Edge.metrics (Edge.after (Edge.ingest_telemetry (to_message t) w st))
            = Edge.incr_transient_503 (Edge.incr_received (Edge.metrics st)))
      as ->.
    { unfold Edge.ingest_telemetry. unfold overloaded in Hw. by rewrite Hw. }
    cbn. repeat split; try done; [by constructor|lia].
Qed.

Lemma network_at t ews st samples (i : nat) rp :
  (served t ews st).1 !! i = Some rp →
  Device.post_result (network t ews st samples (Z.of_nat i))
  = http_of (Edge.response rp).
Proof.
  intros Hi. unfold network. cbn [Device.post_result].
  rewrite (proj2 (Z.leb_le _ _)) by lia. by rewrite Nat2Z.id, Hi.
Qed.

(** While the service is overloaded the device sees transient results. *)
Lemma network_overloaded t pre rest st samples a :
  Forall overloaded pre →
  0 ≤ a < Z.of_nat (length pre) →
  Device.transient_outcome
    (Device.post_result (network t (pre ++ rest) st samples a)) = true.
Proof.
  intros Hpre Ha.
  destruct (served_overloaded t pre st Hpre) as (Hall & Hlen & _).
  assert (Z.to_nat a < length (served t pre st).1)%nat as Hlt by lia.
  apply lookup_lt_is_Some in Hlt as [rp Hrp].
  rewrite <- (Z2Nat.id a) by lia.
  rewrite (network_at t (pre ++ rest) st samples (Z.to_nat a) rp).
  - rewrite (proj1 (Forall_forall _ _) Hall rp); [done|].
    by eapply list_elem_of_lookup_2.
  - rewrite served_app. cbn [fst]. by apply lookup_app_l_Some.
Qed.

Lemma network_after t pre w rest st samples :
  Forall overloaded pre →
  Device.post_result
    (network t (pre ++ w :: rest) st samples (Z.of_nat (length pre)))
  = http_of (Edge.response
               (Edge.ingest_telemetry (to_message t) w (served t pre st).2)).
Proof.
  intros Hpre.
  destruct (served_overloaded t pre st Hpre) as (_ & Hlen & _).
  apply network_at. rewrite served_app, served_cons. cbn [fst].
  rewrite <- Hlen. by apply list_lookup_middle.
Qed.

Lemma ingest_metrics_of m w st :
  Edge.metrics (Edge.after (Edge.ingest_telemetry m w st)) =
  match Edge.outcome (Edge.ingest_telemetry m w st) with
  | Edge.Accepted => Edge.incr_accepted
  | Edge.DuplicateAcknowledged => Edge.incr_duplicates
  | Edge.Rejected => Edge.incr_rejected
  | Edge.Overloaded => Edge.incr_transient_503
  end (Edge.incr_received (Edge.metrics st)).
Proof.
  unfold Edge.ingest_telemetry, Edge.outcome.
  destruct (Qltb _ _); [reflexivity|]. destruct (_ <? _); [reflexivity|].
  destruct (Edge.has_seen _ _ _ _) as [[] c1]; reflexivity.
Qed.

Lemma ingest_metrics_accepted m w st :
  Edge.outcome (Edge.ingest_telemetry m w st) = Edge.Accepted →
  Edge.metrics (Edge.after (Edge.ingest_telemetry m w st))
  = Edge.incr_accepted (Edge.incr_received (Edge.metrics st)).
Proof. intros H. by rewrite ingest_metrics_of, H. Qed.

Lemma key_of_message t :
  Edge.cache_key (Edge.device_id (to_message t)) (Edge.sequence_id (to_message t))
  = Edge.cache_key (Device.device_id t) (Device.sequence_id t).
Proof. done. Qed.

(** X18. Against a service that is overloaded for the first k posts
    (k at most MAX_RETRIES) and not for the next, [send_with_retry]
    delivers a new message with a non-negative sequence number: it returns
    True after k + 1 posts and k backoff sleeps, and the service has then
    recorded the message once (one acceptance, k overloads counted, the
    key cached with the expiry of that acceptance). *)
Theorem delivered_after_overloads
    (t : Device.Telemetry) (pre : list Edge.World) (w : Edge.World)
    (rest : list Edge.World) (st : Edge.State) (samples : Z → Q) :
  0 ≤ Device.sequence_id t →
  Edge.cache (Edge.message_cache st)
    !! Edge.cache_key (Device.device_id t) (Device.sequence_id t) = None →
  Forall overloaded pre → (length pre ≤ 5)%nat →
  Qltb (Edge.random w) Edge.OVERLOAD_PROBABILITY = false →
  let d := deliver t (pre ++ w :: rest) st samples in
  d.1.2 = Device.Returned true ∧
  Device.count Device.is_post d.1.1 = S (length pre) ∧
  Device.count Device.is_sleep d.1.1 = length pre ∧
  Edge.cache (Edge.message_cache d.2)
    !! Edge.cache_key (Device.device_id t) (Device.sequence_id t)
    = Some (float_add_int (Edge.time_mark w)
              (Edge.ttl_seconds (Edge.message_cache st))) ∧
  Edge.accepted_total (Edge.metrics d.2)
    = Edge.accepted_total (Edge.metrics st) + 1 ∧
  Edge.transient_503_total (Edge.metrics d.2)
    = Edge.transient_503_total (Edge.metrics st) + Z.of_nat (length pre).
Proof.
  intros Hpos Hfresh Hpre Hk Hno d. subst d. unfold deliver. cbv zeta.
  cbn [fst snd].
  set (nw := network t (pre ++ w :: rest) st samples).
  destruct (served_overloaded t pre st Hpre) as (_ & _ & Hc & Hacc & _ & H503).
  set (stk := (served t pre st).2) in *.
  pose proof (ingest_checked (to_message t) w stk Hno Hpos) as Hin.
  cbv zeta in Hin.
  assert ((Edge.has_seen (Edge.time_check w) (Edge.device_id (to_message t))
             (Edge.sequence_id (to_message t)) (Edge.message_cache stk)).1
          = false) as Hs.
  { apply has_seen_false. intros e He. rewrite Hc in He.
    change (Edge.cache (Edge.message_cache st)
              !! Edge.cache_key (Device.device_id t) (Device.sequence_id t)
            = Some e) in He.
    congruence. }
  rewrite Hs in Hin. destruct Hin as [Hr Hst].
  assert (Device.post_result (nw (Z.of_nat (length pre)))
          = Device.Responded 200
              (Device.JsonObject (Some (Edge.uuid4 w)))) as Hat.
  { unfold nw. rewrite (network_after t pre w rest st samples Hpre).
    fold stk. by rewrite Hr. }
  assert (∀ a, 0 ≤ a < Z.of_nat (length pre) →
            Device.transient_outcome (Device.post_result (nw a)) = true)
    as Hbefore.
  { intros a Ha. by apply network_overloaded. }
  assert (Device.transient_outcome
            (Device.post_result (nw (Z.of_nat (length pre)))) = false) as Hd.
  { by rewrite Hat. }
  rewrite (posts_when_stopped t nw (length pre) Hk Hbefore Hd).
  destruct (sleeps_when_stopped t nw (length pre) Hk Hbefore Hd) as [-> ->].
  rewrite Hat. split; [done|]. split; [done|]. split; [done|].
  rewrite (cons_middle w pre rest), app_assoc.
  rewrite take_app_length' by (rewrite length_app; cbn; lia).
  rewrite served_app, served_cons. cbn [fst snd served requests_of fmap list_fmap Edge.run].
  fold stk. rewrite Hst, mark_seen_lookup, has_seen_cache, cleanup_ttl, Hc.
  split; [done|].
  rewrite ingest_metrics_accepted by (unfold Edge.outcome; by rewrite Hr).
  cbn. rewrite Hacc, H503. split; lia.
Qed.

Lemma delivered_after_overloads_witness :
  let busy := {| Edge.uuid4 := "a"; Edge.random := 1 # 20;
                 Edge.time_check := 100 # 1; Edge.time_mark := 100 # 1 |} in
  let d := deliver (Device.generate_telemetry 7 readings0)
             ([busy] ++ world_at "b" (101 # 1) :: []) Edge.initial_state
             (λ _, 0 # 1) in
  overloaded busy ∧ d.1.2 = Device.Returned true ∧
  Device.count Device.is_post d.1.1 = 2%nat.
Proof.
  intros busy d. split; [reflexivity|].
  destruct (delivered_after_overloads (Device.generate_telemetry 7 readings0)
              [busy] (world_at "b" (101 # 1)) [] Edge.initial_state (λ _, 0 # 1))
    as (H1 & H2 & _).
  - done.
  - reflexivity.
  - by repeat constructor.
  - cbn. lia.
  - reflexivity.
  - split; [exact H1 | exact H2].
Defined.

(** X19. A resend of a message the service still holds (checked no later
    than the expiry of its entry) is acknowledged: after k overloaded
    posts the service answers 409, [send_with_retry] returns True without
    any further post, and the service counts a duplicate, not a second
    acceptance, leaving the entry and its expiry as they were. *)
Theorem resend_is_acknowledged
    (t : Device.Telemetry) (pre : list Edge.World) (w : Edge.World)
    (rest : list Edge.World) (st : Edge.State) (samples : Z → Q) (e : Q) :
  0 ≤ Device.sequence_id t →
  Edge.cache (Edge.message_cache st)
    !! Edge.cache_key (Device.device_id t) (Device.sequence_id t) = Some e →
  Forall overloaded pre → (length pre ≤ 5)%nat →
  Qltb (Edge.random w) Edge.OVERLOAD_PROBABILITY = false →
  (Edge.time_check w <= e)%Q →
  let d := deliver t (pre ++ w :: rest) st samples in
  d.1.2 = Device.Returned true ∧
  Device.count Device.is_post d.1.1 = S (length pre) ∧
  Edge.cache (Edge.message_cache d.2)
    !! Edge.cache_key (Device.device_id t) (Device.sequence_id t) = Some e ∧
  Edge.accepted_total (Edge.metrics d.2) = Edge.accepted_total (Edge.metrics st) ∧
  Edge.duplicates_total (Edge.metrics d.2)
    = Edge.duplicates_total (Edge.metrics st) + 1.
Proof.
  intros Hpos Hheld Hpre Hk Hno Hle d. subst d. unfold deliver. cbv zeta.
  cbn [fst snd].
  set (nw := network t (pre ++ w :: rest) st samples).
  destruct (served_overloaded t pre st Hpre) as (_ & _ & Hc & Hacc & Hdup & _).
  set (stk := (served t pre st).2) in *.
  pose proof (ingest_checked (to_message t) w stk Hno Hpos) as Hin.
  cbv zeta in Hin.
  assert ((Edge.has_seen (Edge.time_check w) (Edge.device_id (to_message t))
             (Edge.sequence_id (to_message t)) (Edge.message_cache stk)).1
          = true) as Hs.
  { apply has_seen_true. exists e. rewrite Hc. split; [exact Hheld | exact Hle]. }
  rewrite Hs in Hin. destruct Hin as [Hr Hst].
  assert (Device.post_result (nw (Z.of_nat (length pre)))
          = Device.Responded 409 (Device.JsonObject None)) as Hat.
  { unfold nw. rewrite (network_after t pre w rest st samples Hpre).
    fold stk. by rewrite Hr. }
  assert (∀ a, 0 ≤ a < Z.of_nat (length pre) →
            Device.transient_outcome (Device.post_result (nw a)) = true)
    as Hbefore.
  { intros a Ha. by apply network_overloaded. }
  assert (Device.transient_outcome
            (Device.post_result (nw (Z.of_nat (length pre)))) = false) as Hd.
  { by rewrite Hat. }
  rewrite (posts_when_stopped t nw (length pre) Hk Hbefore Hd).
  destruct (sleeps_when_stopped t nw (length pre) Hk Hbefore Hd) as [_ ->].
  rewrite Hat. split; [done|]. split; [done|].
  rewrite (cons_middle w pre rest), app_assoc.
  rewrite take_app_length' by (rewrite length_app; cbn; lia).
  rewrite served_app, served_cons.
  cbn [fst snd served requests_of fmap list_fmap Edge.run].
  fold stk. rewrite Hst, has_seen_cache, cleanup_lookup, Hc.
  split.
  - change (Edge.cache (Edge.message_cache st)
              !! Edge.cache_key (Edge.device_id (to_message t))
                   (Edge.sequence_id (to_message t)))
      with (Edge.cache (Edge.message_cache st)
              !! Edge.cache_key (Device.device_id t) (Device.sequence_id t)).
    rewrite Hheld. unfold Edge.expired.
    assert (Qltb e (Edge.time_check w) = false) as ->; [|done].
    by apply Qltb_false.
  - rewrite ingest_metrics_of. unfold Edge.outcome. rewrite Hr. cbn.
    rewrite Hacc, Hdup. split; lia.
Qed.

Lemma resend_is_acknowledged_witness :
  let st := (Edge.run [request 7 "a" (100 # 1)] Edge.initial_state).2 in
  let d := deliver (Device.generate_telemetry 7 readings0)
             ([] ++ world_at "b" (101 # 1) :: []) st (λ _, 0 # 1) in
  Edge.cache (Edge.message_cache st) !! Edge.cache_key "device-001" 7
    = Some (400 # 1) ∧
  d.1.2 = Device.Returned true ∧
  Edge.accepted_total (Edge.metrics d.2) = 1.
Proof.
  intros st d. split; [by vm_compute|].
  destruct (resend_is_acknowledged (Device.generate_telemetry 7 readings0)
              [] (world_at "b" (101 # 1)) [] st (λ _, 0 # 1) (400 # 1))
    as (H1 & _ & _ & H4 & _).
  - done.
  - by vm_compute.
  - constructor.
  - cbn. lia.
  - reflexivity.
  - qcmp.
  - split; [exact H1|]. exact (eq_trans H4 eq_refl).
Defined.

(** X20. Against a service that is overloaded for all MAX_RETRIES + 1
    posts, [send_with_retry] gives up: it returns False after six posts
    and five sleeps, and the service has recorded nothing (its cache is
    as before, no acceptance counted, six overloads counted). *)
Theorem gives_up_when_overloaded
    (t : Device.Telemetry) (ews : list Edge.World) (st : Edge.State)
    (samples : Z → Q) :
  Forall overloaded ews → (6 ≤ length ews)%nat →
  let d := deliver t ews st samples in
  d.1.2 = Device.Returned false ∧
  Device.count Device.is_post d.1.1 = 6%nat ∧
  Device.count Device.is_sleep d.1.1 = 5%nat ∧
  Edge.message_cache d.2 = Edge.message_cache st ∧
  Edge.accepted_total (Edge.metrics d.2) = Edge.accepted_total (Edge.metrics st) ∧
  Edge.transient_503_total (Edge.metrics d.2)
    = Edge.transient_503_total (Edge.metrics st) + 6.
Proof.
  intros Hall Hlen d. subst d. unfold deliver. cbv zeta. cbn [fst snd].
  set (nw := network t ews st samples).
  assert (∀ a, 0 ≤ a ≤ 5 →
            Device.transient_outcome (Device.post_result (nw a)) = true)
    as Htr.
  { intros a Ha. unfold nw. rewrite <- (app_nil_r ews).
    apply network_overloaded; [done|lia]. }
  rewrite (posts_when_exhausted t nw Htr).
  destruct (exhausted_result t nw Htr) as [-> ->].
  split; [done|]. split; [done|]. split; [done|].
  assert (Forall overloaded (take 6 ews)) as Hsix by (by apply Forall_take).
  destruct (served_overloaded t (take 6 ews) st Hsix)
    as (_ & _ & Hc & Hacc & _ & H503).
  rewrite length_take in H503. rewrite Hc, Hacc, H503.
  split; [done|]. split; [done|]. lia.
Qed.

Lemma gives_up_when_overloaded_witness :
  let busy := {| Edge.uuid4 := "a"; Edge.random := 1 # 20;
                 Edge.time_check := 100 # 1; Edge.time_mark := 100 # 1 |} in
  let d := deliver (Device.generate_telemetry 7 readings0) (replicate 6 busy)
             Edge.initial_state (λ _, 0 # 1) in
  overloaded busy ∧ d.1.2 = Device.Returned false ∧
  Edge.message_cache d.2 = Edge.message_cache Edge.initial_state.
Proof.
  intros busy d. split; [reflexivity|].
  destruct (gives_up_when_overloaded (Device.generate_telemetry 7 readings0)
              (replicate 6 busy) Edge.initial_state (λ _, 0 # 1))
    as (H1 & _ & _ & H4 & _).
  - by repeat constructor.
  - cbn. lia.
  - split; [exact H1 | exact H4].
Defined.

End LinkFacts.
